(** * mcstatus: the framing layer ([protocol/connection.py]) and the retry
    orchestrator ([server.py]), embedded shallowly.

    Python integers are unbounded, so they are [Z] and the bit operators of
    the source are [Z.land], [Z.lor], [Z.lnot], [Z.shiftl] and [Z.shiftr]
    (two's complement on negative numbers, as in Python).  A [bytearray] or
    [bytes] object is a [list Z] of values in [0, 256); a [str] is the list
    of its code points.  Methods mutate [self]: they are functions from the
    object's state to an outcome (a value or the exception raised) and the
    state the call leaves behind. *)

From Stdlib Require Import String ZArith List Bool Lia.
From coqutil Require Import Z.bitblast.
From Equations Require Import Equations.
Import ListNotations.

Local Open Scope Z_scope.

(** ** Python values and exceptions *)

Definition bytes := list Z.

(** A [str], as the sequence of its code points. *)
Definition str := list Z.

(** The exceptions the modelled code can raise, one constructor per raise
    site or per failing library call. *)
Inductive exn : Type :=
| IOError_varint_too_big                 (* "Server sent a varint that was too big!" *)
| ValueError_varint_too_big (value : Z)  (* "The value %d is too big to send in a varint" *)
| IOError_no_information                 (* "Server did not respond with any information!" *)
| TypeError_unsupported (cls op : string) (* "<cls> does not support <op>()" *)
| TypeError_ord (len : nat)              (* ord() of a sequence whose length is not 1 *)
| TypeError_str_without_encoding         (* bytearray(<str>) *)
| TypeError_raise_None                   (* raise None *)
| TypeError_not_an_integer               (* range() of something that is no int *)
| TypeError_bytes_like_required          (* a str where a bytes-like object is required *)
| AttributeError (type attr : string)    (* '<type>' object has no attribute '<attr>' *)
| NameError (name : string)              (* name '<name>' is not defined *)
| StructError                            (* struct.pack("!B", x) with x outside [0, 255] *)
| UnicodeEncodeError
| UnicodeDecodeError
| SocketTimeout
| OtherError (tag : Z).                  (* any exception of a collaborator *)

Inductive res (A : Type) : Type :=
| Ok (a : A)
| Raise (e : exn).
Arguments Ok {A} a.
Arguments Raise {A} e.

(** A method of an object with state [S]: the outcome and the state after. *)
Definition M (S A : Type) : Type := S -> res A * S.

Definition ret {S A} (a : A) : M S A := fun s => (Ok a, s).
Definition raise {S A} (e : exn) : M S A := fun s => (Raise e, s).
Definition bind {S A B} (m : M S A) (k : A -> M S B) : M S B :=
  fun s => match m s with
           | (Ok a, s') => k a s'
           | (Raise e, s') => (Raise e, s')
           end.
(** A library call that touches no state. *)
Definition lift {S A} (r : res A) : M S A := fun s => (r, s).

Declare Scope py_scope.
Delimit Scope py_scope with py.
Notation "x <- m ;; k" := (bind m (fun x => k))
  (at level 61, m at next level, right associativity) : py_scope.
Notation "m ;;; k" := (bind m (fun _ => k))
  (at level 61, right associativity) : py_scope.
Local Open Scope py_scope.

(** [len(x)] *)
Definition len {A} (l : list A) : Z := Z.of_nat (length l).

(** [x[:n]] and [x[n:]] with Python's rule for a negative bound (it counts
    from the end) and its clamping. *)
Definition slice_to {A} (l : list A) (n : Z) : list A :=
  if 0 <=? n then firstn (Z.to_nat n) l
  else firstn (Z.to_nat (len l + n)) l.

Definition slice_from {A} (l : list A) (n : Z) : list A :=
  if 0 <=? n then skipn (Z.to_nat n) l
  else skipn (Z.to_nat (len l + n)) l.

(** [ord(b)] on a bytes-like object. *)
Definition ord (b : bytes) : res Z :=
  match b with
  | [x] => Ok x
  | _ => Raise (TypeError_ord (length b))
  end.

(** [struct.pack("!B", x)] *)
Definition pack_B (x : Z) : res bytes :=
  if (0 <=? x) && (x <=? 255) then Ok [x] else Raise StructError.

(** ** UTF-8, as [bytearray(s, 'utf8')] and [b.decode('utf8')] compute it *)

Definition is_surrogate (c : Z) : bool := (0xD800 <=? c) && (c <=? 0xDFFF).

Definition utf8_encode_char (c : Z) : option bytes :=
  if c <? 0 then None
  else if c <? 0x80 then Some [c]
  else if c <? 0x800 then
    Some [Z.lor 0xC0 (Z.shiftr c 6); Z.lor 0x80 (Z.land c 0x3F)]
  else if is_surrogate c then None
  else if c <? 0x10000 then
    Some [Z.lor 0xE0 (Z.shiftr c 12);
          Z.lor 0x80 (Z.land (Z.shiftr c 6) 0x3F);
          Z.lor 0x80 (Z.land c 0x3F)]
  else if c <? 0x110000 then
    Some [Z.lor 0xF0 (Z.shiftr c 18);
          Z.lor 0x80 (Z.land (Z.shiftr c 12) 0x3F);
          Z.lor 0x80 (Z.land (Z.shiftr c 6) 0x3F);
          Z.lor 0x80 (Z.land c 0x3F)]
  else None.

Fixpoint utf8_encode (s : str) : res bytes :=
  match s with
  | [] => Ok []
  | c :: s' =>
      match utf8_encode_char c, utf8_encode s' with
      | Some b, Ok bs => Ok (b ++ bs)
      | _, _ => Raise UnicodeEncodeError
      end
  end.

Definition is_cont (b : Z) : bool := Z.land b 0xC0 =? 0x80.

(** Strict decoding: no overlong form, no surrogate, nothing above U+10FFFF,
    no truncated sequence.  [fuel] bounds the number of characters, which is
    at most the number of bytes. *)
Fixpoint utf8_decode_aux (fuel : nat) (b : bytes) : res str :=
  match fuel with
  | O => match b with [] => Ok [] | _ => Raise UnicodeDecodeError end
  | S fuel' =>
      let continue c rest :=
        match utf8_decode_aux fuel' rest with
        | Ok s => Ok (c :: s)
        | Raise e => Raise e
        end in
      match b with
      | [] => Ok []
      | b0 :: r0 =>
          if (0 <=? b0) && (b0 <? 0x80) then continue b0 r0
          else if Z.land b0 0xE0 =? 0xC0 then
            match r0 with
            | b1 :: r1 =>
                let c := Z.lor (Z.shiftl (Z.land b0 0x1F) 6) (Z.land b1 0x3F) in
                if is_cont b1 && (0x80 <=? c) then continue c r1
                else Raise UnicodeDecodeError
            | _ => Raise UnicodeDecodeError
            end
          else if Z.land b0 0xF0 =? 0xE0 then
            match r0 with
            | b1 :: b2 :: r2 =>
                let c := Z.lor (Z.shiftl (Z.land b0 0x0F) 12)
                           (Z.lor (Z.shiftl (Z.land b1 0x3F) 6) (Z.land b2 0x3F)) in
                if is_cont b1 && is_cont b2 && (0x800 <=? c)
                   && negb (is_surrogate c)
                then continue c r2
                else Raise UnicodeDecodeError
            | _ => Raise UnicodeDecodeError
            end
          else if Z.land b0 0xF8 =? 0xF0 then
            match r0 with
            | b1 :: b2 :: b3 :: r3 =>
                let c := Z.lor (Z.shiftl (Z.land b0 0x07) 18)
                           (Z.lor (Z.shiftl (Z.land b1 0x3F) 12)
                              (Z.lor (Z.shiftl (Z.land b2 0x3F) 6)
                                 (Z.land b3 0x3F))) in
                if is_cont b1 && is_cont b2 && is_cont b3
                   && (0x10000 <=? c) && (c <? 0x110000)
                then continue c r3
                else Raise UnicodeDecodeError
            | _ => Raise UnicodeDecodeError
            end
          else Raise UnicodeDecodeError
      end
  end.

Definition utf8_decode (b : bytes) : res str := utf8_decode_aux (length b) b.

(** ** The buffered connection: class [Connection] *)

(** What [self.sent] can hold, and what [flush] hands out: the bytearray of
    [__init__], or the [str] that [flush] assigns in its place. *)
Inductive pyobj : Type :=
| Bytes (b : bytes)
| Str (s : str).

(** [len(x)] on either. *)
Definition len_obj (o : pyobj) : Z :=
  match o with Bytes b => len b | Str s => len s end.

(** [bytearray(x)] with a single argument: a [str] needs an encoding. *)
Definition bytearray1 (o : pyobj) : res bytes :=
  match o with
  | Bytes b => Ok b
  | Str _ => Raise TypeError_str_without_encoding
  end.

Record Connection : Type := mkConnection {
  sent : pyobj;
  received : bytes
}.

(** [Connection.__init__] *)
Definition Connection_init : Connection :=
  {| sent := Bytes []; received := [] |}.

Module Buffered.

(** [Connection.read] *)
Definition read (length : Z) : M Connection bytes :=
  fun self =>
    let result := slice_to (received self) length in
    (Ok result,
     {| sent := sent self; received := slice_from (received self) length |}).

(** [self.sent.extend(data)] *)
Definition sent_extend (data : bytes) : M Connection unit :=
  fun self =>
    match sent self with
    | Bytes s => (Ok tt, {| sent := Bytes (s ++ data); received := received self |})
    | Str _ => (Raise (AttributeError "str" "extend"), self)
    end.

(** [Connection.write] on a [str] or a bytes-like argument. *)
Definition write (data : pyobj) : M Connection unit :=
  data' <- lift (match data with
                 | Str _ => bytearray1 data
                 | Bytes b => Ok b
                 end) ;;
  sent_extend data'.

(** [Connection.receive] *)
Definition receive (data : pyobj) : M Connection unit :=
  data' <- lift (bytearray1 data) ;;
  fun self =>
    (Ok tt, {| sent := sent self; received := received self ++ data' |}).

(** [Connection.remaining] *)
Definition remaining : M Connection Z :=
  fun self => (Ok (len (received self)), self).

(** [Connection.flush] *)
Definition flush : M Connection pyobj :=
  fun self =>
    let result := sent self in
    (Ok result, {| sent := Str []; received := received self |}).

(** [Connection.write] on another [Connection] object [data], distinct
    from [self]: the outcome, [self] after, [data] after. *)
Definition write_connection (data : Connection) (self : Connection)
  : res unit * Connection * Connection :=
  match flush data with
  | (Ok flushed, data') =>
      match bytearray1 flushed with
      | Ok b => (sent_extend b self, data')
      | Raise e => (Raise e, self, data')
      end
  | (Raise e, data') => (Raise e, self, data')
  end.

End Buffered.

(** ** The stream-backed connection: class [TCPSocketConnection] *)

(** The [asyncio] reader: the segments still to arrive, in order; the peer
    closes the stream after the last one.  The writer: the bytes handed to
    it so far.  Both are [None] until [__aenter__] has run. *)
Record TCPSocketConnection : Type := mkTCP {
  _reader : option (list bytes);
  _writer : option bytes
}.

(** [StreamReader.read(n)] for [n > 0]: up to [n] bytes of the next segment,
    the empty bytes object once the peer has closed. *)
Fixpoint stream_read (n : nat) (segments : list bytes) : bytes * list bytes :=
  match segments with
  | [] => ([], [])
  | [] :: rest => stream_read n rest
  | seg :: rest =>
      (firstn n seg,
       match skipn n seg with [] => rest | seg' => seg' :: rest end)
  end.

Module TCP.

Definition unsupported {A} (op : string) : M TCPSocketConnection A :=
  raise (TypeError_unsupported "TCPSocketConnection" op).

(** [TCPSocketConnection.flush], [.receive] and [.remaining] *)
Definition flush : M TCPSocketConnection pyobj := unsupported "flush".
Definition receive (data : pyobj) : M TCPSocketConnection unit :=
  unsupported "receive".
Definition remaining : M TCPSocketConnection Z := unsupported "remaining".

(** [await self._reader.read(n)] *)
Definition reader_read (n : Z) : M TCPSocketConnection bytes :=
  fun self =>
    match _reader self with
    | None => (Raise (AttributeError "NoneType" "read"), self)
    | Some segments =>
        let (new, segments') := stream_read (Z.to_nat n) segments in
        (Ok new, {| _reader := Some segments'; _writer := _writer self |})
    end.

(** [TCPSocketConnection.write] *)
Definition write (data : pyobj) : M TCPSocketConnection unit :=
  fun self =>
    match _writer self, data with
    | None, _ => (Raise (AttributeError "NoneType" "write"), self)
    | Some out, Bytes b =>
        (Ok tt, {| _reader := _reader self; _writer := Some (out ++ b) |})
    | Some _, Str _ => (Raise TypeError_bytes_like_required, self)
    end.

End TCP.

Module TCPRead.
Import TCP.

(** The loop of [TCPSocketConnection.read], entered with the bytearray
    [result] built so far.  Every turn either raises or makes [result]
    longer, which is why the loop ends. *)
Equations? read_loop (length_ : Z) (result : bytes) (self : TCPSocketConnection)
  : res bytes * TCPSocketConnection
  by wf (Z.to_nat (length_ - len result)) lt :=
  read_loop length_ result self with Z_lt_dec (len result) length_ := {
    | right _ := (Ok result, self)
    | left _ with reader_read (length_ - len result) self := {
        | (Raise e, self') := (Raise e, self')
        | (Ok new, self') with Z.eq_dec (len new) 0 := {
            | left _ := (Raise IOError_no_information, self')
            | right _ := read_loop length_ (result ++ new) self' } } }.
Proof.
  unfold len in *. rewrite length_app. lia.
Qed.

(** [TCPSocketConnection.read] *)
Definition read (length : Z) : M TCPSocketConnection bytes :=
  read_loop length [].

End TCPRead.

(** ** The datagram-backed connection: class [UDPSocketConnection] *)

(** The socket: the datagrams that arrive before the receive timeout runs
    out, in order, and the datagrams sent so far. *)
Record UDPSocketConnection : Type := mkUDP {
  incoming : list bytes;
  outgoing : list bytes
}.

Module UDP.

Definition unsupported {A} (op : string) : M UDPSocketConnection A :=
  raise (TypeError_unsupported "UDPSocketConnection" op).

(** [UDPSocketConnection.flush] and [.receive] *)
Definition flush : M UDPSocketConnection pyobj := unsupported "flush".
Definition receive (data : pyobj) : M UDPSocketConnection unit :=
  unsupported "receive".

(** [UDPSocketConnection.remaining] *)
Definition remaining : M UDPSocketConnection Z := ret 65535.

(** The loop of [UDPSocketConnection.read]: [self.socket.recvfrom(bufsize)[0]]
    is the next datagram cut to [bufsize] bytes, and raises the socket's
    timeout when none is left; [result] is empty on every turn, so
    extending it gives the datagram. *)
Fixpoint recv_loop (bufsize : Z) (datagrams : list bytes)
  : res bytes * list bytes :=
  match datagrams with
  | [] => (Raise SocketTimeout, [])
  | d :: rest =>
      let result := firstn (Z.to_nat bufsize) d in
      if len result =? 0 then recv_loop bufsize rest else (Ok result, rest)
  end.

(** [UDPSocketConnection.read]: [length] is not used. *)
Definition read (length : Z) : M UDPSocketConnection bytes :=
  bufsize <- remaining ;;
  fun self =>
    let (r, rest) := recv_loop bufsize (incoming self) in
    (r, {| incoming := rest; outgoing := outgoing self |}).

(** [UDPSocketConnection.write] on a bytes-like or [str] argument. *)
Definition write (data : pyobj) : M UDPSocketConnection unit :=
  fun self =>
    match data with
    | Bytes b =>
        (Ok tt, {| incoming := incoming self; outgoing := outgoing self ++ [b] |})
    | Str _ => (Raise TypeError_bytes_like_required, self)
    end.

End UDP.

(** ** The codec, over any connection class

    The codec methods are defined once in [Connection] and reach the
    transport through [self.read] and [self.write], which the subclasses
    override. *)
Class ConnectionOps (C : Type) : Type := {
  read : Z -> M C bytes;
  write : pyobj -> M C unit
}.

#[export] Instance Buffered_ops : ConnectionOps Connection :=
  {| read := Buffered.read; write := Buffered.write |}.

#[export] Instance TCP_ops : ConnectionOps TCPSocketConnection :=
  {| read := TCPRead.read; write := TCP.write |}.

Section Codec.
Context {C : Type} `{ConnectionOps C}.

(** [Connection.read_varint]: the [for i in range(5)] loop with [n] turns
    left, at index [i]. *)
Fixpoint read_varint_loop (n : nat) (i : Z) (result : Z) : M C Z :=
  match n with
  | O => raise IOError_varint_too_big
  | S n' =>
      b <- read 1 ;;
      part <- lift (ord b) ;;
      let result := Z.lor result (Z.shiftl (Z.land part 0x7F) (7 * i)) in
      if Z.land part 0x80 =? 0 then ret result
      else read_varint_loop n' (i + 1) result
  end.

Definition read_varint : M C Z := read_varint_loop 5 0 0.

(** [Connection.write_varint]: the loop with [n] turns left. *)
Fixpoint write_varint_loop (n : nat) (value remaining : Z) : M C unit :=
  match n with
  | O => raise (ValueError_varint_too_big value)
  | S n' =>
      if Z.land remaining (Z.lnot 0x7F) =? 0 then
        b <- lift (pack_B remaining) ;;
        write (Bytes b)
      else
        b <- lift (pack_B (Z.lor (Z.land remaining 0x7F) 0x80)) ;;
        write (Bytes b) ;;;
        write_varint_loop n' value (Z.shiftr remaining 7)
  end.

Definition write_varint (value : Z) : M C unit :=
  write_varint_loop 5 value value.

(** [Connection.read_utf] *)
Definition read_utf : M C str :=
  length <- read_varint ;;
  b <- read length ;;
  lift (utf8_decode b).

(** [Connection.write_utf] *)
Definition write_utf (value : str) : M C unit :=
  write_varint (len value) ;;;
  b <- lift (utf8_encode value) ;;
  write (Bytes b).

(** [Connection.read_buffer] *)
Definition read_buffer : M C Connection :=
  length <- read_varint ;;
  data <- read length ;;
  match Buffered.receive (Bytes data) Connection_init with
  | (Ok _, result) => ret result
  | (Raise e, _) => raise e
  end.

(** [Connection.write_buffer], for a [buffer] that is a [Connection]
    object distinct from [self]: the outcome and [self] after, and
    [buffer] after. *)
Definition write_buffer (buffer : Connection) (self : C)
  : (res unit * C) * Connection :=
  match Buffered.flush buffer with
  | (Ok data, buffer') =>
      ((write_varint (len_obj data) ;;; write data) self, buffer')
  | (Raise e, buffer') => ((Raise e, self), buffer')
  end.

End Codec.

(** The bytes [write_varint] has written when it gives up: [n] bytes, all
    with the continuation bit, carrying the low 7-bit groups of [r]. *)
Fixpoint continuation_bytes (n : nat) (r : Z) : bytes :=
  match n with
  | O => []
  | S n' => Z.lor (Z.land r 0x7F) 0x80 :: continuation_bytes n' (Z.shiftr r 7)
  end.

(** ** Using a buffered connection the way a test does *)

(** [c = Connection(); m(c); bytearray(c.flush())] *)
Definition written {A} (m : M Connection A) : res bytes :=
  match (m ;;; Buffered.flush) Connection_init with
  | (Ok data, _) => bytearray1 data
  | (Raise e, _) => Raise e
  end.

(** [c = Connection(); c.receive(b); m(c)] *)
Definition reading {A} (m : M Connection A) (b : bytes) : res A :=
  fst ((Buffered.receive (Bytes b) ;;; m) Connection_init).

(** ** The retry orchestrator: class [MinecraftServer] *)

(** Values a name can be bound to, as far as the loops need them. *)
Inductive pyvalue : Type :=
| Int (z : Z)
| NoneValue
| Object.

Definition scope := list (string * pyvalue).

Fixpoint lookup_name (name : string) (sc : scope) : option pyvalue :=
  match sc with
  | [] => None
  | (x, v) :: sc' => if String.eqb x name then Some v else lookup_name name sc'
  end.

(** The names [server.py] binds at module level. *)
Definition server_globals : scope :=
  [ ("ServerPinger", Object); ("TCPSocketConnection", Object);
    ("UDPSocketConnection", Object); ("ServerQuerier", Object);
    ("parse_address", Object); ("dns", Object); ("MinecraftServer", Object) ]%string.

(** Reading a name inside a function body: the locals, then the module. *)
Definition load_name {S} (name : string) (locals : scope) : M S pyvalue :=
  match lookup_name name (locals ++ server_globals) with
  | Some v => ret v
  | None => raise (NameError name)
  end.

(** [range(x)]: the number of turns. *)
Definition range_count {S} (x : pyvalue) : M S nat :=
  match x with
  | Int z => ret (Z.to_nat z)
  | _ => raise TypeError_not_an_integer
  end.

Section Orchestrator.

(** What lies outside the two files: the network and the peers, as a
    state [World]; the decoded result of an exchange; and the
    collaborators acting on the world. *)
Variables World Result Host : Type.

(** [asyncio.wait_for(asyncio.open_connection(host, port), timeout)] and
    [self._writer.close()]. *)
Variable open_connection : World -> res unit * World.
Variable close_writer : World -> World.

(** One exchange of each protocol, handshake included:
    [ServerPinger(...).handshake(); test_ping()],
    [ServerPinger(...).handshake(); read_status(); test_ping()] and
    [UDPSocketConnection(...); ServerQuerier(...).handshake(); read_query()]. *)
Variable ping_exchange : World -> res Result * World.
Variable status_exchange : World -> res Result * World.
Variable query_exchange : Host -> World -> res Result * World.

(** [dns.resolver.query(host, "A")], each answer already passed through
    [str(answer).rstrip(".")]. *)
Variable resolve_A : Host -> World -> res (list Host) * World.

(** The body shared by the three methods:
    [for attempt in range(n): try: return exchange() except Exception as e:
    exception = e] followed by [else: raise exception].  Every [exn] of
    this model is an [Exception]. *)
Fixpoint attempts (exchange : M World Result) (n : nat)
    (exception : option exn) : M World Result :=
  match n with
  | O =>
      match exception with
      | Some e => raise e
      | None => raise TypeError_raise_None
      end
  | S n' =>
      fun w =>
        match exchange w with
        | (Ok result, w') => (Ok result, w')
        | (Raise e, w') => attempts exchange n' (Some e) w'
        end
  end.

(** [async with TCPSocketConnection(...) as connection: body] *)
Definition with_tcp_connection (body : M World Result) : M World Result :=
  fun w =>
    match open_connection w with
    | (Ok _, w1) => let (r, w2) := body w1 in (r, close_writer w2)
    | (Raise e, w1) => (Raise e, w1)
    end.

(** The local names of [ping] and [status] where the loop starts. *)
Definition pinger_locals (tries : Z) : scope :=
  [ ("self", Object); ("tries", Int tries); ("kwargs", Object);
    ("connection", Object); ("exception", NoneValue) ]%string.

(** [MinecraftServer.ping] *)
Definition ping (tries : Z) : M World Result :=
  with_tcp_connection
    (retries <- load_name "retries" (pinger_locals tries) ;;
     n <- range_count retries ;;
     attempts ping_exchange n None).

(** [MinecraftServer.status] *)
Definition status (tries : Z) : M World Result :=
  with_tcp_connection
    (retries <- load_name "retries" (pinger_locals tries) ;;
     n <- range_count retries ;;
     attempts status_exchange n None).

(** The local names of [query] where the loop starts. *)
Definition query_locals (tries : Z) : scope :=
  [ ("self", Object); ("tries", Int tries); ("exception", NoneValue);
    ("host", Object); ("answers", Object); ("answer", Object) ]%string.

(** The start of [MinecraftServer.query] on a server whose [self.host] is
    [host]: the first A record replaces the host; a failed or empty
    lookup leaves it. *)
Definition query_host (host : Host) (w : World) : Host * World :=
  match resolve_A host w with
  | (Ok (answer :: _), w') => (answer, w')
  | (_, w') => (host, w')
  end.

(** [MinecraftServer.query] *)
Definition query (host : Host) (tries : Z) : M World Result :=
  fun w =>
    let (host', w1) := query_host host w in
    (tries' <- load_name "tries" (query_locals tries) ;;
     n <- range_count tries' ;;
     attempts (query_exchange host') n None) w1.

(** The world before attempt [k + 1], and what that attempt does. *)
Fixpoint world_before (exchange : M World Result) (k : nat) (w : World) : World :=
  match k with
  | O => w
  | S k' => world_before exchange k' (snd (exchange w))
  end.

Definition attempt_outcome (exchange : M World Result) (k : nat) (w : World)
  : res Result :=
  fst (exchange (world_before exchange k w)).

End Orchestrator.

Arguments attempts {World Result} exchange n exception _.
Arguments with_tcp_connection {World Result} open_connection close_writer body _.
Arguments ping {World Result} open_connection close_writer ping_exchange tries _.
Arguments status {World Result} open_connection close_writer status_exchange tries _.
Arguments query_host {World Host} resolve_A host w.
Arguments query {World Result Host} query_exchange resolve_A host tries _.
Arguments world_before {World Result} exchange k w.
Arguments attempt_outcome {World Result} exchange k w.

(** A scripted collaborator over a world that counts the exchanges made: it
    succeeds on exchange number [succeed_at], with that number as result,
    and fails on every other one. *)
Definition flaky (succeed_at : nat) : M nat Z :=
  fun count =>
    (if Nat.eqb (S count) succeed_at then Ok (Z.of_nat (S count))
     else Raise (OtherError (Z.of_nat (S count))),
     S count).


(** ** [struct]: the big-endian formats behind [_pack] and [_unpack] *)

(** The six format characters the class uses. *)
Inductive format : Type :=
| fmt_h | fmt_H | fmt_i | fmt_I | fmt_q | fmt_Q.

(** The size in bytes of a format, and whether it is signed. *)
Definition format_size (f : format) : nat :=
  match f with
  | fmt_h | fmt_H => 2
  | fmt_i | fmt_I => 4
  | fmt_q | fmt_Q => 8
  end.

Definition format_signed (f : format) : bool :=
  match f with
  | fmt_h | fmt_i | fmt_q => true
  | fmt_H | fmt_I | fmt_Q => false
  end.

Definition format_bits (f : format) : Z := 8 * Z.of_nat (format_size f).

(** The least and the greatest value [struct.pack] accepts for a format. *)
Definition format_min (f : format) : Z :=
  if format_signed f then - 2 ^ (format_bits f - 1) else 0.

Definition format_max (f : format) : Z :=
  if format_signed f then 2 ^ (format_bits f - 1) - 1
  else 2 ^ format_bits f - 1.

(** The [n] low bytes of [v], most significant first. *)
Fixpoint be_bytes (n : nat) (v : Z) : bytes :=
  match n with
  | O => []
  | S n' => Z.land (Z.shiftr v (8 * Z.of_nat n')) 0xFF :: be_bytes n' v
  end.

(** The unsigned number a byte string spells, most significant first. *)
Definition be_value (b : bytes) : Z :=
  fold_left (fun acc x => Z.lor (Z.shiftl acc 8) x) b 0.

(** [struct.pack(">" + format, data)] for an [int]. *)
Definition struct_pack (f : format) (data : Z) : res bytes :=
  if (format_min f <=? data) && (data <=? format_max f)
  then Ok (be_bytes (format_size f) data)
  else Raise StructError.

(** [struct.unpack(">" + format, data)[0]]: the buffer must have the size
    of the format. *)
Definition struct_unpack (f : format) (data : bytes) : res Z :=
  if Nat.eqb (length data) (format_size f) then
    let u := be_value data in
    Ok (if format_signed f && (2 ^ (format_bits f - 1) <=? u)
        then u - 2 ^ format_bits f
        else u)
  else Raise StructError.

(** [bytearray(value, 'ISO-8859-1')] and [b.decode("ISO-8859-1")]: one byte
    per character, the character's number. *)
Definition latin1_encode (value : str) : res bytes :=
  if forallb (fun c => (0 <=? c) && (c <=? 255)) value then Ok value
  else Raise UnicodeEncodeError.

Definition latin1_decode (b : bytes) : str := b.

Section FixedAndAscii.
Context {C : Type} `{ConnectionOps C}.

(** [Connection._unpack] and [Connection._pack] *)
Definition _unpack (f : format) (data : bytes) : M C Z :=
  lift (struct_unpack f data).

Definition _pack (f : format) (data : Z) : M C bytes :=
  lift (struct_pack f data).

(** [Connection.read_short] ... [Connection.write_ulong] *)
Definition read_short : M C Z := b <- read 2 ;; _unpack fmt_h b.
Definition write_short (value : Z) : M C unit :=
  b <- _pack fmt_h value ;; write (Bytes b).

Definition read_ushort : M C Z := b <- read 2 ;; _unpack fmt_H b.
Definition write_ushort (value : Z) : M C unit :=
  b <- _pack fmt_H value ;; write (Bytes b).

Definition read_int : M C Z := b <- read 4 ;; _unpack fmt_i b.
Definition write_int (value : Z) : M C unit :=
  b <- _pack fmt_i value ;; write (Bytes b).

Definition read_uint : M C Z := b <- read 4 ;; _unpack fmt_I b.
Definition write_uint (value : Z) : M C unit :=
  b <- _pack fmt_I value ;; write (Bytes b).

Definition read_long : M C Z := b <- read 8 ;; _unpack fmt_q b.
Definition write_long (value : Z) : M C unit :=
  b <- _pack fmt_q value ;; write (Bytes b).

Definition read_ulong : M C Z := b <- read 8 ;; _unpack fmt_Q b.
Definition write_ulong (value : Z) : M C unit :=
  b <- _pack fmt_Q value ;; write (Bytes b).

(** The reading and the writing method of each format. *)
Definition read_fixed (f : format) : M C Z :=
  match f with
  | fmt_h => read_short | fmt_H => read_ushort
  | fmt_i => read_int | fmt_I => read_uint
  | fmt_q => read_long | fmt_Q => read_ulong
  end.

Definition write_fixed (f : format) : Z -> M C unit :=
  match f with
  | fmt_h => write_short | fmt_H => write_ushort
  | fmt_i => write_int | fmt_I => write_uint
  | fmt_q => write_long | fmt_Q => write_ulong
  end.

(** The loop of [Connection.read_ascii],
    [while len(result) == 0 or result[-1] != 0: result.extend(await self.read(1))].
    Nothing bounds it in the source: [fuel] is the number of times the
    condition may be tested, and [None] says the loop was still running
    when the fuel ran out. *)
Fixpoint read_ascii_loop (fuel : nat) (result : bytes) (self : C)
  : option (res bytes * C) :=
  match fuel with
  | O => None
  | S fuel' =>
      if (len result =? 0) || negb (last result 0 =? 0) then
        match read 1 self with
        | (Ok b, self') => read_ascii_loop fuel' (result ++ b) self'
        | (Raise e, self') => Some (Raise e, self')
        end
      else Some (Ok result, self)
  end.

(** [Connection.read_ascii] *)
Definition read_ascii (fuel : nat) (self : C) : option (res str * C) :=
  match read_ascii_loop fuel [] self with
  | Some (Ok result, self') =>
      Some (Ok (latin1_decode (slice_to result (-1))), self')
  | Some (Raise e, self') => Some (Raise e, self')
  | None => None
  end.

(** [Connection.write_ascii] *)
Definition write_ascii (value : str) : M C unit :=
  b <- lift (latin1_encode value) ;;
  write (Bytes b) ;;;
  write (Bytes [0]).

End FixedAndAscii.

(** The loop condition of [read_ascii], as a proposition: [result] is empty
    or ends in a byte other than zero. *)
Definition still_reading (result : bytes) : Prop :=
  result = [] \/ last result 0 <> 0.

(** * Properties *)

(** ** Running a sequence of calls *)

Lemma bind_ok {S A B} (m : M S A) (k : A -> M S B) (s s' : S) (a : A) :
  m s = (Ok a, s') -> bind m k s = k a s'.
Proof. intros Hm. unfold bind. rewrite Hm. reflexivity. Qed.

Lemma bind_raise {S A B} (m : M S A) (k : A -> M S B) (s s' : S) (e : exn) :
  m s = (Raise e, s') -> bind m k s = (Raise e, s').
Proof. intros Hm. unfold bind. rewrite Hm. reflexivity. Qed.

Lemma pack_B_byte (x : Z) : 0 <= x <= 255 -> pack_B x = Ok [x].
Proof.
  intros Hx. unfold pack_B.
  replace ((0 <=? x) && (x <=? 255)) with true; [reflexivity|].
  symmetry. apply andb_true_intro. split; apply Z.leb_le; lia.
Qed.

(** ** Bit-level facts behind the varint codec *)

Lemma land_lnot_127 (r : Z) : Z.land r (Z.lnot 0x7F) = 0 <-> 0 <= r < 128.
Proof.
  rewrite <- Z.ldiff_land.
  change 0x7F with (Z.ones 7).
  rewrite Z.ldiff_ones_r by lia.
  rewrite Z.shiftl_mul_pow2, Z.shiftr_div_pow2 by lia.
  change (2 ^ 7) with 128.
  split; intros Hr.
  - assert (Hq : r / 128 = 0) by lia. apply Z.div_small_iff in Hq; lia.
  - rewrite Z.div_small by lia. reflexivity.
Qed.

Lemma low7_small (r : Z) : 0 <= r < 128 -> Z.land r 0x7F = r.
Proof.
  intros Hr. change 0x7F with (Z.ones 7).
  rewrite Z.land_ones by lia. apply Z.mod_small. lia.
Qed.

Lemma bit7_small (r : Z) : 0 <= r < 128 -> Z.land r 0x80 = 0.
Proof.
  intros Hr. change 0x80 with (Z.shiftl (Z.ones 1) 7).
  rewrite <- (Z.mod_small r (2^7)) by lia. rewrite <- Z.land_ones by lia.
  Z.bitblast.
Qed.

Lemma cont_byte_range (r : Z) : 0 <= Z.lor (Z.land r 0x7F) 0x80 <= 255.
Proof.
  pose proof (Z.add_lor_land (Z.land r 0x7F) 0x80) as Hadd.
  assert (Hz : Z.land (Z.land r 0x7F) 0x80 = 0).
  { change 0x7F with (Z.ones 7). change 0x80 with (Z.shiftl (Z.ones 1) 7).
    Z.bitblast. }
  rewrite Hz in Hadd.
  assert (Hlow : 0 <= Z.land r 0x7F < 128).
  { change 0x7F with (Z.ones 7). rewrite Z.land_ones by lia.
    apply Z.mod_pos_bound. lia. }
  lia.
Qed.

Lemma cont_byte_low7 (r : Z) :
  Z.land (Z.lor (Z.land r 0x7F) 0x80) 0x7F = Z.land r 0x7F.
Proof.
  change 0x7F with (Z.ones 7). change 0x80 with (Z.shiftl (Z.ones 1) 7). Z.bitblast.
Qed.

Lemma cont_byte_bit7 (r : Z) :
  Z.land (Z.lor (Z.land r 0x7F) 0x80) 0x80 = 0x80.
Proof.
  change 0x7F with (Z.ones 7). change 0x80 with (Z.shiftl (Z.ones 1) 7). Z.bitblast.
Qed.

Lemma regroup (r i : Z) : 0 <= i ->
  Z.lor (Z.shiftl (Z.land r 0x7F) (7 * i)) (Z.shiftl (Z.shiftr r 7) (7 * (i + 1)))
  = Z.shiftl r (7 * i).
Proof.
  intros Hi. change 0x7F with (Z.ones 7). Z.bitblast.
  rewrite Z.testbit_neg_r by lia. reflexivity.
Qed.

Lemma buffered_write_bytes (b s rcv : bytes) :
  write (Bytes b) {| sent := Bytes s; received := rcv |}
  = (Ok tt, {| sent := Bytes (s ++ b); received := rcv |}).
Proof. reflexivity. Qed.

Lemma buffered_read_1 (snt : pyobj) (x : Z) (rest : bytes) :
  read 1 {| sent := snt; received := x :: rest |}
  = (Ok [x], {| sent := snt; received := rest |}).
Proof. reflexivity. Qed.

Lemma varint_loop_roundtrip (n : nat) :
  forall (value r : Z) (s rcv : bytes),
    0 <= r < 2 ^ (7 * Z.of_nat (S n)) ->
    exists bs : bytes,
      (length bs <= S n)%nat /\
      write_varint_loop (S n) value r {| sent := Bytes s; received := rcv |}
      = (Ok tt, {| sent := Bytes (s ++ bs); received := rcv |}) /\
      forall (i acc : Z) (snt : pyobj) (rest : bytes),
        0 <= i ->
        read_varint_loop (S n) i acc {| sent := snt; received := bs ++ rest |}
        = (Ok (Z.lor acc (Z.shiftl r (7 * i))),
           {| sent := snt; received := rest |}).
Proof.
  induction n as [|n IH]; intros value r s rcv Hr;
    cbn [write_varint_loop read_varint_loop];
    destruct (Z.land r (Z.lnot 127) =? 0) eqn:Hsmall.
  1, 3:
    apply Z.eqb_eq, land_lnot_127 in Hsmall;
    exists [r]; split; [simpl; lia|]; split;
    [ rewrite pack_B_byte by lia; apply buffered_write_bytes
    | intros i acc snt rest Hi; cbn [app];
      erewrite bind_ok by apply buffered_read_1; cbn [ord];
      erewrite bind_ok by reflexivity;
      rewrite (bit7_small r Hsmall), (low7_small r Hsmall); reflexivity ].
  - apply Z.eqb_neq in Hsmall.
    pose proof (land_lnot_127 r) as Hiff.
    change (2 ^ (7 * Z.of_nat 1)) with 128 in Hr. tauto.
  - apply Z.eqb_neq in Hsmall.
    assert (Hr' : 0 <= Z.shiftr r 7 < 2 ^ (7 * Z.of_nat (S n))).
    { rewrite Z.shiftr_div_pow2 by lia. split.
      - apply Z.div_pos; lia.
      - apply Z.div_lt_upper_bound; [lia|].
        rewrite <- Z.pow_add_r by lia.
        replace (7 + 7 * Z.of_nat (S n)) with (7 * Z.of_nat (S (S n))) by lia.
        lia. }
    set (b := Z.lor (Z.land r 127) 128).
    destruct (IH value (Z.shiftr r 7) (s ++ [b]) rcv Hr')
      as (bs & Hlen & Hw & Hrd).
    exists (b :: bs). split; [simpl; lia|]. split.
    + rewrite pack_B_byte by apply cont_byte_range.
      erewrite bind_ok by reflexivity.
      erewrite bind_ok by apply buffered_write_bytes.
      refine (eq_trans Hw _). rewrite <- app_assoc. reflexivity.
    + intros i acc snt rest Hi. cbn [app].
      erewrite bind_ok by apply buffered_read_1. cbn [ord].
      erewrite bind_ok by reflexivity. subst b.
      rewrite cont_byte_bit7, cont_byte_low7. cbn [Z.eqb].
      etransitivity; [apply (Hrd (i + 1)); lia|].
      rewrite <- Z.lor_assoc, regroup by lia. reflexivity.
Qed.

(** ** The varint codec on buffered connections *)

(** Any value below [2 ^ 35] is written in at most five bytes, and those
    bytes, at the front of a receive queue, decode to the value. *)
Lemma varint_roundtrip_state (v : Z) (s rcv : bytes) :
  0 <= v < 2 ^ 35 ->
  exists bs : bytes,
    (length bs <= 5)%nat /\
    write_varint v {| sent := Bytes s; received := rcv |}
    = (Ok tt, {| sent := Bytes (s ++ bs); received := rcv |}) /\
    forall (snt : pyobj) (rest : bytes),
      read_varint {| sent := snt; received := bs ++ rest |}
      = (Ok v, {| sent := snt; received := rest |}).
Proof.
  intros Hv.
  destruct (varint_loop_roundtrip 4 v v s rcv Hv) as (bs & Hlen & Hw & Hrd).
  exists bs. split; [exact Hlen|]. split; [exact Hw|].
  intros snt rest. unfold read_varint.
  rewrite (Hrd 0 0 snt rest) by lia.
  rewrite Z.lor_0_l, Z.shiftl_0_r. reflexivity.
Qed.

Lemma written_ok {A} (m : M Connection A) (a : A) (bs rcv : bytes) :
  m Connection_init = (Ok a, {| sent := Bytes bs; received := rcv |}) ->
  written m = Ok bs.
Proof.
  intros Hm. unfold written.
  erewrite bind_ok by exact Hm. reflexivity.
Qed.

Lemma written_raise {A} (m : M Connection A) (e : exn) (c : Connection) :
  m Connection_init = (Raise e, c) -> written m = Raise e.
Proof.
  intros Hm. unfold written.
  erewrite bind_raise by exact Hm. reflexivity.
Qed.

Lemma reading_eq {A} (m : M Connection A) (b : bytes) :
  reading m b = fst (m {| sent := Bytes []; received := b |}).
Proof. reflexivity. Qed.

Lemma varint_roundtrip (v : Z) :
  0 <= v < 2 ^ 35 ->
  exists bs : bytes,
    (length bs <= 5)%nat /\
    written (write_varint v) = Ok bs /\
    reading read_varint bs = Ok v.
Proof.
  intros Hv.
  destruct (varint_roundtrip_state v [] [] Hv) as (bs & Hlen & Hw & Hrd).
  exists bs. split; [exact Hlen|]. split.
  - apply (written_ok _ tt bs []). exact Hw.
  - rewrite reading_eq. specialize (Hrd (Bytes []) []).
    rewrite app_nil_r in Hrd. rewrite Hrd. reflexivity.
Qed.

(** C1: for every [v] in [0, 2^32), the bytes [write_varint v] produces are
    decoded by [read_varint] to [v] again. *)
Theorem C1_varint_roundtrip_32 (v : Z) :
  0 <= v < 2 ^ 32 ->
  exists bs : bytes,
    written (write_varint v) = Ok bs /\ reading read_varint bs = Ok v.
Proof.
  intros Hv.
  destruct (varint_roundtrip v) as (bs & _ & Hw & Hr); [lia|].
  exists bs. split; assumption.
Qed.

Lemma C1_varint_roundtrip_32_witness :
  0 <= 300 < 2 ^ 32 /\
  exists bs : bytes,
    written (write_varint 300) = Ok bs /\ reading read_varint bs = Ok 300.
Proof.
  split; [lia|]. apply (C1_varint_roundtrip_32 300). lia.
Defined.

(** C10: the codec round-trips on all of [0, 2^35): [write_varint v]
    succeeds with at most five bytes and [read_varint] of them returns [v];
    so [read_varint] can return values at or above [2^32]. *)
Theorem C10_varint_roundtrip_35 :
  (forall v : Z,
      0 <= v < 2 ^ 35 ->
      exists bs : bytes,
        (length bs <= 5)%nat /\
        written (write_varint v) = Ok bs /\
        reading read_varint bs = Ok v) /\
  (exists (bs : bytes) (v : Z),
      reading read_varint bs = Ok v /\ 2 ^ 32 <= v).
Proof.
  split.
  - exact varint_roundtrip.
  - exists [255; 255; 255; 255; 127], (2 ^ 35 - 1).
    split; [reflexivity | lia].
Qed.

Lemma C10_varint_roundtrip_35_witness :
  0 <= 2 ^ 32 < 2 ^ 35 /\
  exists bs : bytes,
    (length bs <= 5)%nat /\
    written (write_varint (2 ^ 32)) = Ok bs /\
    reading read_varint bs = Ok (2 ^ 32).
Proof.
  split; [lia|]. apply (proj1 C10_varint_roundtrip_35). lia.
Defined.

(** ** Values and byte sequences the varint codec refuses *)

Lemma write_varint_loop_gives_up (n : nat) :
  forall (value r : Z) (s rcv : bytes),
    r < 0 \/ 2 ^ (7 * Z.of_nat n) <= r ->
    write_varint_loop n value r {| sent := Bytes s; received := rcv |}
    = (Raise (ValueError_varint_too_big value),
       {| sent := Bytes (s ++ continuation_bytes n r); received := rcv |}).
Proof.
  induction n as [|n IH]; intros value r s rcv Hr;
    cbn [write_varint_loop continuation_bytes].
  - rewrite app_nil_r. reflexivity.
  - assert (Hpow : 2 ^ (7 * Z.of_nat (S n)) = 128 * 2 ^ (7 * Z.of_nat n)).
    { replace (7 * Z.of_nat (S n)) with (7 + 7 * Z.of_nat n) by lia.
      rewrite Z.pow_add_r by lia. reflexivity. }
    assert (Hp : 0 < 2 ^ (7 * Z.of_nat n)) by (apply Z.pow_pos_nonneg; lia).
    destruct (Z.land r (Z.lnot 127) =? 0) eqn:Hsmall.
    { apply Z.eqb_eq, land_lnot_127 in Hsmall. nia. }
    rewrite pack_B_byte by apply cont_byte_range.
    erewrite bind_ok by reflexivity.
    erewrite bind_ok by apply buffered_write_bytes.
    etransitivity; [apply IH|].
    + destruct Hr as [Hneg | Hbig].
      * left. apply Z.shiftr_neg. exact Hneg.
      * right. rewrite Z.shiftr_div_pow2 by lia.
        apply Z.div_le_lower_bound; [lia|].
        change (2 ^ 7) with 128. lia.
    + rewrite <- app_assoc. reflexivity.
Qed.

Lemma read_varint_loop_gives_up (n : nat) :
  forall (bs rest : bytes) (i acc : Z) (snt : pyobj),
    length bs = n ->
    Forall (fun b => Z.land b 0x80 <> 0) bs ->
    read_varint_loop n i acc {| sent := snt; received := bs ++ rest |}
    = (Raise IOError_varint_too_big, {| sent := snt; received := rest |}).
Proof.
  induction n as [|n IH]; intros bs rest i acc snt Hlen Hall;
    destruct bs as [|b bs]; try discriminate Hlen.
  - reflexivity.
  - inversion Hall as [|? ? Hb Hbs]; subst.
    cbn [read_varint_loop app].
    erewrite bind_ok by apply buffered_read_1. cbn [ord].
    erewrite bind_ok by reflexivity.
    apply Z.eqb_neq in Hb. rewrite Hb.
    apply IH; [simpl in Hlen; lia | exact Hbs].
Qed.

(** C5: encoding a value that needs a sixth byte ([2^35] or more) fails
    with the too-big [ValueError]; decoding a sequence whose first five
    bytes all carry the continuation bit fails with the too-big [IOError]. *)
Theorem C5_varint_boundary :
  (forall (v : Z) (s rcv : bytes),
      2 ^ 35 <= v ->
      fst (write_varint v {| sent := Bytes s; received := rcv |})
      = Raise (ValueError_varint_too_big v)) /\
  (forall (bs rest : bytes) (snt : pyobj),
      length bs = 5%nat ->
      Forall (fun b => Z.land b 0x80 <> 0) bs ->
      fst (read_varint {| sent := snt; received := bs ++ rest |})
      = Raise IOError_varint_too_big).
Proof.
  split.
  - intros v s rcv Hv. unfold write_varint.
    rewrite write_varint_loop_gives_up by (right; exact Hv). reflexivity.
  - intros bs rest snt Hlen Hall. unfold read_varint.
    rewrite (read_varint_loop_gives_up 5 bs rest 0 0 snt Hlen Hall).
    reflexivity.
Qed.

Lemma C5_varint_boundary_witness :
  (2 ^ 35 <= 2 ^ 35 /\
   written (write_varint (2 ^ 35)) = Raise (ValueError_varint_too_big (2 ^ 35))) /\
  (length [128; 255; 129; 200; 255] = 5%nat /\
   Forall (fun b => Z.land b 0x80 <> 0) [128; 255; 129; 200; 255] /\
   reading read_varint ([128; 255; 129; 200; 255] ++ [1])
   = Raise IOError_varint_too_big).
Proof.
  split.
  - split; [lia|].
    pose proof (proj1 C5_varint_boundary (2 ^ 35) [] [] ltac:(lia)) as Hw.
    destruct (write_varint (2 ^ 35) {| sent := Bytes []; received := [] |})
      as [r c] eqn:Hrun.
    simpl in Hw. subst r. exact (written_raise _ _ _ Hrun).
  - assert (Hall : Forall (fun b => Z.land b 0x80 <> 0) [128; 255; 129; 200; 255])
      by (repeat constructor; discriminate).
    split; [reflexivity|]. split; [exact Hall|].
    rewrite reading_eq.
    exact (proj2 C5_varint_boundary [128; 255; 129; 200; 255] [1] (Bytes [])
             eq_refl Hall).
Defined.

(** C6 as stated fails at [v = -1]: the encoder does not produce the bytes
    of [(-1) mod 2^32]; it produces no encoding at all. *)
Lemma C6_negative_not_reinterpreted :
  ~ (exists bs : bytes,
        written (write_varint (-1)) = Ok bs /\
        written (write_varint ((-1) mod 2 ^ 32)) = Ok bs).
Proof.
  intros (bs & Hneg & _). vm_compute in Hneg. discriminate Hneg.
Qed.

(** C6, amended: for every negative [v], [write_varint v] appends five
    continuation bytes (the low five 7-bit groups of [v]) to the outgoing
    bytes and then fails with the too-big [ValueError]. *)
Theorem C6_negative_varint_fails (v : Z) (s rcv : bytes) :
  v < 0 ->
  write_varint v {| sent := Bytes s; received := rcv |}
  = (Raise (ValueError_varint_too_big v),
     {| sent := Bytes (s ++ continuation_bytes 5 v); received := rcv |}).
Proof.
  intros Hv. unfold write_varint.
  apply write_varint_loop_gives_up. left. exact Hv.
Qed.

Lemma C6_negative_varint_fails_witness :
  -1 < 0 /\
  write_varint (-1) Connection_init
  = (Raise (ValueError_varint_too_big (-1)),
     {| sent := Bytes [255; 255; 255; 255; 255]; received := [] |}).
Proof.
  split; [lia|]. apply (C6_negative_varint_fails (-1) [] []). lia.
Defined.

(** ** Reading from the three kinds of connection *)

Lemma len_app {A} (l1 l2 : list A) : len (l1 ++ l2) = len l1 + len l2.
Proof. unfold len. rewrite length_app. lia. Qed.

Lemma len_nonneg {A} (l : list A) : 0 <= len l.
Proof. unfold len. lia. Qed.

Lemma len_zero_nil {A} (l : list A) : len l = 0 -> l = [].
Proof. destruct l; [reflexivity | unfold len; simpl; lia]. Qed.

(** What [StreamReader.read] hands out: a prefix of the stream, at most
    [n] bytes, and empty only when nothing is left (or nothing is asked). *)
Lemma stream_read_spec (n : nat) (segments : list bytes) :
  forall new segments',
    stream_read n segments = (new, segments') ->
    concat segments = new ++ concat segments' /\
    (length new <= n)%nat /\
    (new = [] -> n = 0%nat \/ concat segments = []).
Proof.
  induction segments as [|seg segments IH]; intros new segments' Hrd.
  - inversion Hrd; subst. simpl. repeat split; [lia | auto].
  - destruct seg as [|b seg].
    + simpl in Hrd. simpl. apply IH. exact Hrd.
    + cbn [stream_read] in Hrd. inversion Hrd as [[Hnew Hseg]]; clear Hrd.
      split; [|split].
      * cbn [concat].
        rewrite <- (firstn_skipn n (b :: seg)) at 1.
        rewrite <- app_assoc. f_equal.
        destruct (skipn n (b :: seg)); reflexivity.
      * apply firstn_le_length.
      * intros Hnil. destruct n; [left; reflexivity | discriminate Hnil].
Qed.

Lemma reader_read_spec (n : Z) (self self' : TCPSocketConnection) (new : bytes) :
  TCP.reader_read n self = (Ok new, self') ->
  exists segments segments',
    _reader self = Some segments /\
    self' = {| _reader := Some segments'; _writer := _writer self |} /\
    stream_read (Z.to_nat n) segments = (new, segments').
Proof.
  unfold TCP.reader_read. intros Hrd.
  destruct (_reader self) as [segments|]; [|discriminate Hrd].
  destruct (stream_read (Z.to_nat n) segments) as [new0 segments'] eqn:Hs.
  inversion Hrd; subst. exists segments, segments'. auto.
Qed.

(** A successful [TCPSocketConnection.read] has gathered exactly [length]
    bytes. *)
Lemma read_loop_exact (length_ : Z) (result : bytes) (self : TCPSocketConnection) :
  forall r self',
    len result <= length_ ->
    TCPRead.read_loop length_ result self = (Ok r, self') ->
    len r = length_.
Proof.
  funelim (TCPRead.read_loop length_ result self); intros r self0 Hle Hrun.
  - inversion Hrun; subst. lia.
  - discriminate Hrun.
  - discriminate Hrun.
  - match goal with
    | Hrd : TCP.reader_read _ _ = _ |- _ =>
        apply reader_read_spec in Hrd as (segs & segs' & _ & _ & Hs)
    end.
    apply stream_read_spec in Hs as (_ & Hlen & _).
    match goal with
    | IH : forall r s, _ -> _ -> len r = _ |- _ => apply (IH r self0)
    end; [|exact Hrun].
    rewrite len_app. unfold len in *. lia.
Qed.

(** When the peer closes before [length] bytes have come, the read raises;
    what had arrived is not returned. *)
Lemma read_loop_peer_closed (length_ : Z) (result : bytes)
    (self : TCPSocketConnection) :
  forall segments,
    _reader self = Some segments ->
    len result + len (concat segments) < length_ ->
    fst (TCPRead.read_loop length_ result self) = Raise IOError_no_information.
Proof.
  funelim (TCPRead.read_loop length_ result self); intros segments Hsome Hshort;
    try match goal with
      | Hcall : _ = TCPRead.read_loop _ _ _ |- _ => rewrite <- Hcall
      end.
  - pose proof (len_nonneg (concat segments)). lia.
  - match goal with
    | Hrd : TCP.reader_read _ _ = _ |- _ =>
        unfold TCP.reader_read in Hrd; rewrite Hsome in Hrd;
        destruct (stream_read _ segments); discriminate Hrd
    end.
  - reflexivity.
  - match goal with
    | Hrd : TCP.reader_read _ _ = _ |- _ =>
        apply reader_read_spec in Hrd as (segs & segs' & Hs1 & Hs2 & Hs)
    end.
    rewrite Hsome in Hs1. inversion Hs1; subst segs.
    apply stream_read_spec in Hs as (Hcat & _ & _).
    match goal with
    | IH : forall s, _ -> _ -> fst _ = _ |- _ => apply (IH segs')
    end.
    + subst self'. reflexivity.
    + rewrite Hcat, len_app in Hshort. rewrite len_app. lia.
Qed.

(** When enough bytes come, the read returns the first [length] of them. *)
Lemma read_loop_enough (length_ : Z) (result : bytes)
    (self : TCPSocketConnection) :
  forall segments,
    _reader self = Some segments ->
    len result <= length_ <= len result + len (concat segments) ->
    fst (TCPRead.read_loop length_ result self)
    = Ok (result ++ firstn (Z.to_nat (length_ - len result)) (concat segments)).
Proof.
  funelim (TCPRead.read_loop length_ result self); intros segments Hsome Hle;
    try match goal with
      | Hcall : _ = TCPRead.read_loop _ _ _ |- _ => rewrite <- Hcall
      end.
  - replace (length_ - len result) with 0 by lia.
    cbn [Z.to_nat firstn fst]. rewrite app_nil_r. reflexivity.
  - match goal with
    | Hrd : TCP.reader_read _ _ = _ |- _ =>
        unfold TCP.reader_read in Hrd; rewrite Hsome in Hrd;
        destruct (stream_read _ segments); discriminate Hrd
    end.
  - match goal with
    | Hrd : TCP.reader_read _ _ = _ |- _ =>
        apply reader_read_spec in Hrd as (segs & segs' & Hs1 & _ & Hs)
    end.
    rewrite Hsome in Hs1. inversion Hs1; subst segs.
    apply stream_read_spec in Hs as (_ & _ & Hnil).
    match goal with
    | Hz : len _ = 0 |- _ => pose proof (len_zero_nil _ Hz) as Hnew
    end.
    destruct (Hnil Hnew) as [Hn | Hc].
    + lia.
    + rewrite Hc in Hle. unfold len in Hle at 3. simpl in Hle. lia.
  - match goal with
    | Hrd : TCP.reader_read _ _ = _ |- _ =>
        apply reader_read_spec in Hrd as (segs & segs' & Hs1 & Hs2 & Hs)
    end.
    rewrite Hsome in Hs1. inversion Hs1; subst segs.
    apply stream_read_spec in Hs as (Hcat & Hlen & _).
    match goal with
    | IH : forall s, _ -> _ -> fst _ = _ |- _ => rewrite (IH segs')
    end.
    + rewrite Hcat, <- app_assoc. do 2 f_equal.
      rewrite firstn_app, (firstn_all2 new) by exact Hlen.
      f_equal. f_equal. rewrite len_app. unfold len in *. lia.
    + subst self'. reflexivity.
    + rewrite Hcat, len_app in Hle. rewrite len_app.
      unfold len in *. lia.
Qed.

Lemma buffered_read_enough (n : Z) (self : Connection) :
  0 <= n <= len (received self) ->
  exists r : bytes,
    Buffered.read n self
    = (Ok r, {| sent := sent self; received := skipn (Z.to_nat n) (received self) |}) /\
    len r = n /\
    received self = r ++ skipn (Z.to_nat n) (received self).
Proof.
  intros Hn. exists (firstn (Z.to_nat n) (received self)).
  unfold Buffered.read, slice_to, slice_from.
  replace (0 <=? n) with true by (symmetry; apply Z.leb_le; lia).
  split; [reflexivity|]. split.
  - unfold len in *. rewrite length_firstn. lia.
  - symmetry. apply firstn_skipn.
Qed.

Lemma recv_loop_spec (bufsize : Z) (datagrams : list bytes) :
  forall r rest,
    UDP.recv_loop bufsize datagrams = (Ok r, rest) ->
    r <> [] /\
    exists d, In d datagrams /\ r = firstn (Z.to_nat bufsize) d.
Proof.
  induction datagrams as [|d ds IH]; intros r rest Hrun;
    cbn [UDP.recv_loop] in Hrun.
  - discriminate Hrun.
  - destruct (len (firstn (Z.to_nat bufsize) d) =? 0) eqn:Hempty.
    + destruct (IH r rest Hrun) as (Hne & d' & Hin & Hr).
      split; [exact Hne|]. exists d'. split; [right; exact Hin | exact Hr].
    + inversion Hrun; subst. apply Z.eqb_neq in Hempty. split.
      * intros Hnil. rewrite Hnil in Hempty. apply Hempty. reflexivity.
      * exists d. split; [left; reflexivity | reflexivity].
Qed.

(** C2 as stated fails: a buffered [read(5)] on three held bytes succeeds
    with those three bytes, and a datagram [read(5)] succeeds with the
    seven bytes of the datagram that arrived. *)
Lemma C2_read_returns_other_lengths :
  (exists r c,
      Buffered.read 5 {| sent := Bytes []; received := [1; 2; 3] |} = (Ok r, c) /\
      len r <> 5) /\
  (exists r c,
      UDP.read 5 {| incoming := [[1; 2; 3; 4; 5; 6; 7]]; outgoing := [] |} = (Ok r, c) /\
      len r <> 5).
Proof.
  split.
  - exists [1; 2; 3], {| sent := Bytes []; received := [] |}.
    split; [reflexivity | discriminate].
  - exists [1; 2; 3; 4; 5; 6; 7], {| incoming := []; outgoing := [] |}.
    split; [vm_compute; reflexivity | discriminate].
Qed.

(** C2, amended: a TCP [read(n)] returns exactly [n] bytes or raises, and
    raises the [IOError] of a silent peer when the stream ends before [n]
    bytes have come; a buffered [read(n)] returns exactly [n] bytes when at
    least [n] are held; a datagram [read(n)] returns one whole non-empty
    datagram whatever [n] is. *)
Theorem C2_read_lengths :
  (forall (n : Z) (self self' : TCPSocketConnection) (r : bytes),
      0 <= n ->
      TCPRead.read n self = (Ok r, self') ->
      len r = n) /\
  (forall (n : Z) (segments : list bytes) (out : option bytes),
      len (concat segments) < n ->
      fst (TCPRead.read n {| _reader := Some segments; _writer := out |})
      = Raise IOError_no_information) /\
  (forall (n : Z) (self : Connection),
      0 <= n <= len (received self) ->
      exists r : bytes,
        fst (Buffered.read n self) = Ok r /\ len r = n) /\
  (forall (n : Z) (self self' : UDPSocketConnection) (r : bytes),
      UDP.read n self = (Ok r, self') ->
      r <> [] /\ exists d, In d (incoming self) /\ r = firstn (Z.to_nat 65535) d).
Proof.
  split; [|split; [|split]].
  - intros n self self' r Hn Hrun.
    apply (read_loop_exact n [] self r self'); [exact Hn | exact Hrun].
  - intros n segments out Hshort.
    apply (read_loop_peer_closed n [] _ segments); [reflexivity | exact Hshort].
  - intros n self Hn.
    destruct (buffered_read_enough n self Hn) as (r & Hrun & Hlen & _).
    exists r. rewrite Hrun. split; [reflexivity | exact Hlen].
  - intros n self self' r Hrun.
    unfold UDP.read, UDP.remaining in Hrun.
    erewrite bind_ok in Hrun by reflexivity.
    destruct (UDP.recv_loop 65535 (incoming self)) as [r0 rest] eqn:Hloop.
    inversion Hrun; subst.
    apply (recv_loop_spec 65535 (incoming self) r rest Hloop).
Qed.

Lemma C2_read_lengths_witness :
  (0 <= 5 /\ len [1; 2; 3; 4; 5] = 5) /\
  (len (concat [[1; 2]; [3]]) < 5 /\
   fst (TCPRead.read 5 {| _reader := Some [[1; 2]; [3]]; _writer := Some [] |})
   = Raise IOError_no_information) /\
  (0 <= 2 <= len [1; 2; 3] /\
   exists r : bytes,
     fst (Buffered.read 2 {| sent := Bytes []; received := [1; 2; 3] |}) = Ok r /\
     len r = 2) /\
  ([7; 8; 9] <> [] /\
   exists d, In d [[]; [7; 8; 9]] /\ [7; 8; 9] = firstn (Z.to_nat 65535) d).
Proof.
  destruct C2_read_lengths as (Htcp & Hclosed & Hbuf & Hudp).
  split; [|split; [|split]].
  - split; [lia|].
    apply (Htcp 5 {| _reader := Some [[1; 2]; [3; 4; 5; 6]]; _writer := Some [] |}
             {| _reader := Some [[6]]; _writer := Some [] |});
      [lia | vm_compute; reflexivity].
  - assert (Hshort : len (concat [[1; 2]; [3]]) < 5) by (vm_compute; reflexivity).
    split; [exact Hshort|]. apply Hclosed. exact Hshort.
  - assert (Hn : 0 <= 2 <= len [1; 2; 3]) by (unfold len; simpl; lia).
    split; [exact Hn|].
    apply (Hbuf 2 {| sent := Bytes []; received := [1; 2; 3] |}). exact Hn.
  - apply (Hudp 5 {| incoming := [[]; [7; 8; 9]]; outgoing := [] |}
             {| incoming := []; outgoing := [] |}).
    vm_compute. reflexivity.
Defined.

(** ** Length-prefixed strings *)

(** What [write_utf] sends: the varint of [len(value)], which counts the
    characters of the [str], and then the UTF-8 bytes. *)
Lemma write_utf_written (value : str) (bs : bytes) :
  utf8_encode value = Ok bs ->
  len value < 2 ^ 35 ->
  exists prefix : bytes,
    written (write_varint (len value)) = Ok prefix /\
    reading read_varint prefix = Ok (len value) /\
    write_utf value Connection_init
    = (Ok tt, {| sent := Bytes (prefix ++ bs); received := [] |}) /\
    forall (snt : pyobj) (rest : bytes),
      read_varint {| sent := snt; received := prefix ++ rest |}
      = (Ok (len value), {| sent := snt; received := rest |}).
Proof.
  intros Henc Hlen.
  assert (Hrange : 0 <= len value < 2 ^ 35)
    by (split; [apply len_nonneg | exact Hlen]).
  destruct (varint_roundtrip_state (len value) [] [] Hrange)
    as (prefix & _ & Hw & Hrd).
  exists prefix. split; [|split; [|split]].
  - apply (written_ok _ tt prefix []). exact Hw.
  - rewrite reading_eq. specialize (Hrd (Bytes []) []).
    rewrite app_nil_r in Hrd. rewrite Hrd. reflexivity.
  - unfold write_utf.
    erewrite bind_ok by exact Hw. rewrite Henc.
    erewrite bind_ok by reflexivity. apply buffered_write_bytes.
  - exact Hrd.
Qed.

Lemma utf8_encode_ascii (s : str) :
  Forall (fun c => 0 <= c < 128) s -> utf8_encode s = Ok s.
Proof.
  induction 1 as [|c s Hc _ IH]; [reflexivity|].
  cbn [utf8_encode]. rewrite IH. unfold utf8_encode_char.
  replace (c <? 0) with false by (symmetry; apply Z.ltb_ge; lia).
  replace (c <? 128) with true by (symmetry; apply Z.ltb_lt; lia).
  reflexivity.
Qed.

Lemma utf8_decode_aux_ascii (s : str) :
  Forall (fun c => 0 <= c < 128) s ->
  forall fuel, (length s <= fuel)%nat -> utf8_decode_aux fuel s = Ok s.
Proof.
  induction 1 as [|c s Hc _ IH]; intros fuel Hfuel.
  - destruct fuel; reflexivity.
  - destruct fuel as [|fuel]; [simpl in Hfuel; lia|].
    cbn [utf8_decode_aux].
    replace ((0 <=? c) && (c <? 128)) with true.
    + rewrite IH by (simpl in Hfuel; lia). reflexivity.
    + symmetry. apply andb_true_intro.
      split; [apply Z.leb_le | apply Z.ltb_lt]; lia.
Qed.

(** X12: On strings of ASCII characters, where characters and bytes are counted
    alike, [read_utf] gives back what [write_utf] wrote. *)
Lemma utf_roundtrip_ascii (s : str) :
  Forall (fun c => 0 <= c < 128) s ->
  len s < 2 ^ 35 ->
  exists w : bytes,
    written (write_utf s) = Ok w /\ reading read_utf w = Ok s.
Proof.
  intros Hascii Hlen.
  destruct (write_utf_written s s (utf8_encode_ascii s Hascii) Hlen)
    as (prefix & _ & _ & Hw & Hrd).
  exists (prefix ++ s). split.
  - apply (written_ok _ tt _ []). exact Hw.
  - rewrite reading_eq. unfold read_utf.
    erewrite bind_ok by apply Hrd.
    assert (Hread : read (len s) {| sent := Bytes []; received := s |}
                    = (Ok s, {| sent := Bytes []; received := [] |})).
    { cbn [read Buffered_ops]. unfold Buffered.read, slice_to, slice_from.
      cbn [received sent].
      replace (0 <=? len s) with true
        by (symmetry; apply Z.leb_le, len_nonneg).
      unfold len. rewrite Nat2Z.id, firstn_all, skipn_all. reflexivity. }
    erewrite bind_ok by exact Hread.
    cbn [lift fst]. unfold utf8_decode.
    apply utf8_decode_aux_ascii; [exact Hascii | lia].
Qed.

(** C3 at the string "é" (U+00E9, two bytes in UTF-8): [write_utf] sends the
    prefix 1, the number of characters, before the two bytes C3 A9; the
    byte length is 2.  [read_utf] then takes one byte, which is no UTF-8,
    and raises instead of giving the string back. *)
Theorem C3_write_utf_counts_characters :
  utf8_encode [0xE9] = Ok [0xC3; 0xA9] /\
  written (write_varint 2) = Ok [2] /\
  written (write_utf [0xE9]) = Ok [1; 0xC3; 0xA9] /\
  reading read_utf [1; 0xC3; 0xA9] = Raise UnicodeDecodeError /\
  reading read_utf [2; 0xC3; 0xA9] = Ok [0xE9].
Proof. repeat split. Qed.

(** ** Sub-packets *)

Lemma write_buffer_too_long (B brcv pre rcv : bytes) :
  2 ^ 35 <= len B ->
  fst (fst (write_buffer {| sent := Bytes B; received := brcv |}
              {| sent := Bytes pre; received := rcv |}))
  = Raise (ValueError_varint_too_big (len B)).
Proof.
  intros Hlen. unfold write_buffer, Buffered.flush.
  cbv beta iota. change (sent {| sent := Bytes B; received := brcv |}) with (Bytes B).
  cbv beta iota. change (len_obj (Bytes B)) with (len B).
  unfold write_varint.
  erewrite bind_raise
    by (apply write_varint_loop_gives_up; right; exact Hlen).
  reflexivity.
Qed.

(** C7 as stated fails for a [B] of [2^35] bytes: its length does not fit
    a varint, and [write_buffer] raises. *)
Lemma C7_subpacket_too_long :
  fst (fst (write_buffer
              {| sent := Bytes (repeat 0 (Z.to_nat (2 ^ 35))); received := [] |}
              Connection_init))
  = Raise (ValueError_varint_too_big (2 ^ 35)).
Proof.
  assert (Hlen : len (repeat 0 (Z.to_nat (2 ^ 35))) = 2 ^ 35).
  { unfold len. rewrite repeat_length. apply Z2Nat.id. lia. }
  rewrite <- Hlen at 2. apply write_buffer_too_long. rewrite Hlen. lia.
Qed.

(** C7, amended: for every [B] of fewer than [2^35] bytes, [write_buffer]
    of a connection that has accumulated [B] appends [w], the varint of
    [len(B)] and then [B], and leaves the buffer flushed; [read_buffer] on a
    connection that holds [w] yields a connection whose received bytes are
    [B], with [remaining()] equal to [len(B)], and to 0 once [len(B)] bytes
    have been read, which are [B]. *)
Theorem C7_subpacket_roundtrip (B brcv pre rcv : bytes) :
  len B < 2 ^ 35 ->
  exists w : bytes,
    write_buffer {| sent := Bytes B; received := brcv |}
      {| sent := Bytes pre; received := rcv |}
    = ((Ok tt, {| sent := Bytes (pre ++ w); received := rcv |}),
       {| sent := Str []; received := brcv |}) /\
    forall (snt : pyobj) (rest : bytes),
    exists result result' : Connection,
      read_buffer {| sent := snt; received := w ++ rest |}
      = (Ok result, {| sent := snt; received := rest |}) /\
      received result = B /\
      Buffered.remaining result = (Ok (len B), result) /\
      Buffered.read (len B) result = (Ok B, result') /\
      Buffered.remaining result' = (Ok 0, result').
Proof.
  intros Hlen.
  assert (Hrange : 0 <= len B < 2 ^ 35)
    by (split; [apply len_nonneg | exact Hlen]).
  destruct (varint_roundtrip_state (len B) pre rcv Hrange)
    as (prefix & _ & Hw & Hrd).
  assert (Hslice : forall l : bytes,
             slice_to (B ++ l) (len B) = B /\ slice_from (B ++ l) (len B) = l).
  { intros l. unfold slice_to, slice_from.
    replace (0 <=? len B) with true by (symmetry; apply Z.leb_le; lia).
    unfold len. rewrite Nat2Z.id.
    rewrite firstn_app, firstn_all, Nat.sub_diag, app_nil_r.
    rewrite skipn_app, skipn_all, Nat.sub_diag. split; reflexivity. }
  exists (prefix ++ B). split.
  - unfold write_buffer, Buffered.flush. cbn [sent received len_obj].
    erewrite bind_ok by exact Hw.
    rewrite buffered_write_bytes, app_assoc. reflexivity.
  - intros snt rest.
    exists {| sent := Bytes []; received := B |},
           {| sent := Bytes []; received := [] |}.
    split; [|split; [|split; [|split]]]; try reflexivity.
    + unfold read_buffer. rewrite <- app_assoc.
      erewrite bind_ok by apply Hrd.
      assert (Hread : read (len B) {| sent := snt; received := B ++ rest |}
                      = (Ok B, {| sent := snt; received := rest |})).
      { cbn [read Buffered_ops]. unfold Buffered.read. cbn [received sent].
        destruct (Hslice rest) as [-> ->]. reflexivity. }
      erewrite bind_ok by exact Hread. reflexivity.
    + unfold Buffered.read. cbn [received sent].
      destruct (Hslice []) as [Hto Hfrom]. rewrite app_nil_r in Hto, Hfrom.
      rewrite Hto, Hfrom. reflexivity.
Qed.

Lemma C7_subpacket_roundtrip_witness :
  len [10; 20; 30] < 2 ^ 35 /\
  exists w : bytes,
    write_buffer {| sent := Bytes [10; 20; 30]; received := [] |}
      {| sent := Bytes []; received := [] |}
    = ((Ok tt, {| sent := Bytes ([] ++ w); received := [] |}),
       {| sent := Str []; received := [] |}) /\
    forall (snt : pyobj) (rest : bytes),
    exists result result' : Connection,
      read_buffer {| sent := snt; received := w ++ rest |}
      = (Ok result, {| sent := snt; received := rest |}) /\
      received result = [10; 20; 30] /\
      Buffered.remaining result = (Ok (len [10; 20; 30]), result) /\
      Buffered.read (len [10; 20; 30]) result = (Ok [10; 20; 30], result') /\
      Buffered.remaining result' = (Ok 0, result').
Proof.
  assert (Hlen : len [10; 20; 30] < 2 ^ 35) by (vm_compute; reflexivity).
  split; [exact Hlen|].
  apply (C7_subpacket_roundtrip [10; 20; 30] [] [] []). exact Hlen.
Defined.

(** ** Flushing *)

(** The first [flush] of a connection returns what was written. *)
Lemma flush_returns_written (B : bytes) :
  (write (Bytes B) ;;; Buffered.flush) Connection_init
  = (Ok (Bytes B), {| sent := Str []; received := [] |}).
Proof. reflexivity. Qed.

(** C8 on [c = Connection(); c.write(B); c.flush(); c.write(D); c.flush()]:
    the first [flush] returns [B] and leaves an empty [str] in [self.sent],
    so the write of [D] raises [AttributeError] and [D] is never returned. *)
Theorem C8_write_after_flush_raises (B D : bytes) :
  (write (Bytes B) ;;; Buffered.flush) Connection_init
  = (Ok (Bytes B), {| sent := Str []; received := [] |}) /\
  (write (Bytes B) ;;; Buffered.flush ;;; write (Bytes D) ;;; Buffered.flush)
    Connection_init
  = (Raise (AttributeError "str" "extend"), {| sent := Str []; received := [] |}).
Proof. split; reflexivity. Qed.

(** ** Operations the transports refuse *)

(** C9 as stated fails: [remaining()] on the datagram connection returns a
    value. *)
Lemma C9_udp_remaining_returns :
  ~ (exists e : exn,
        fst (UDP.remaining {| incoming := []; outgoing := [] |}) = Raise e).
Proof. intros (e & He). discriminate He. Qed.

(** C9, amended: [flush], [receive] and [remaining] on the TCP connection
    and [flush] and [receive] on the UDP connection raise the [TypeError]
    that names the class and the operation, whatever the state; [remaining]
    on the UDP connection returns 65535. *)
Theorem C9_unsupported_operations :
  (forall self : TCPSocketConnection,
      TCP.flush self
      = (Raise (TypeError_unsupported "TCPSocketConnection" "flush"), self) /\
      (forall data, TCP.receive data self
      = (Raise (TypeError_unsupported "TCPSocketConnection" "receive"), self)) /\
      TCP.remaining self
      = (Raise (TypeError_unsupported "TCPSocketConnection" "remaining"), self)) /\
  (forall self : UDPSocketConnection,
      UDP.flush self
      = (Raise (TypeError_unsupported "UDPSocketConnection" "flush"), self) /\
      (forall data, UDP.receive data self
      = (Raise (TypeError_unsupported "UDPSocketConnection" "receive"), self)) /\
      UDP.remaining self = (Ok 65535, self)).
Proof. repeat split. Qed.

(** ** The retry loop *)

Section Retry.
Context {World Result : Type}.
Variable exchange : M World Result.

Lemma attempts_first_success (k : nat) :
  forall (n : nat) (exception : option exn) (w : World) (result : Result),
    (k < n)%nat ->
    (forall j, (j < k)%nat -> exists e, attempt_outcome exchange j w = Raise e) ->
    attempt_outcome exchange k w = Ok result ->
    fst (attempts exchange n exception w) = Ok result.
Proof.
  induction k as [|k IH]; intros n exception w result Hk Hfail Hok;
    (destruct n as [|n]; [lia|]); cbn [attempts].
  - unfold attempt_outcome in Hok. cbn [world_before] in Hok.
    destruct (exchange w) as [[r|e] w']; cbn [fst] in Hok;
      [inversion Hok; reflexivity | discriminate Hok].
  - destruct (Hfail 0%nat ltac:(lia)) as (e0 & He0).
    unfold attempt_outcome in He0. cbn [world_before] in He0.
    destruct (exchange w) as [[r|e] w'] eqn:Hrun; cbn [fst] in He0;
      [discriminate He0|].
    apply IH; [lia| |].
    + intros j Hj. destruct (Hfail (S j) ltac:(lia)) as (e' & He').
      exists e'. unfold attempt_outcome in *. cbn [world_before] in He'.
      rewrite Hrun in He'. exact He'.
    + unfold attempt_outcome in *. cbn [world_before] in Hok.
      rewrite Hrun in Hok. exact Hok.
Qed.

Lemma attempts_all_fail (n : nat) :
  forall (exception : option exn) (w : World),
    (forall j, (j <= n)%nat -> exists e, attempt_outcome exchange j w = Raise e) ->
    fst (attempts exchange (S n) exception w)
    = attempt_outcome exchange n w.
Proof.
  induction n as [|n IH]; intros exception w Hfail.
  - destruct (Hfail 0%nat ltac:(lia)) as (e & He).
    rewrite He. unfold attempt_outcome in He. cbn [world_before] in He.
    cbn [attempts]. destruct (exchange w) as [[r|e'] w'];
      cbn [fst] in He; [discriminate He|]. cbn. exact He.
  - destruct (Hfail 0%nat ltac:(lia)) as (e & He).
    unfold attempt_outcome in He. cbn [world_before] in He.
    change (attempts exchange (S (S n)) exception w)
      with (match exchange w with
            | (Ok result, w') => (Ok result, w')
            | (Raise e, w') => attempts exchange (S n) (Some e) w'
            end).
    unfold attempt_outcome at 1. cbn [world_before].
    destruct (exchange w) as [[r|e'] w'] eqn:Hrun; cbn [fst] in He;
      [discriminate He|].
    cbn [snd]. apply IH. intros j Hj.
    destruct (Hfail (S j) ltac:(lia)) as (e'' & He'').
    exists e''. unfold attempt_outcome in *. cbn [world_before] in He''.
    rewrite Hrun in He''. exact He''.
Qed.

End Retry.

(** ** The three operations of [MinecraftServer] *)

Section Operations.
Context {World Result Host : Type}.
Variable open_connection : World -> res unit * World.
Variable close_writer : World -> World.
Variables ping_exchange status_exchange : M World Result.
Variable query_exchange : Host -> M World Result.
Variable resolve_A : Host -> World -> res (list Host) * World.

Lemma query_runs_attempts (host : Host) (tries : Z) (w : World) :
  query query_exchange resolve_A host tries w
  = attempts (query_exchange (fst (query_host resolve_A host w)))
      (Z.to_nat tries) None (snd (query_host resolve_A host w)).
Proof.
  unfold query. destruct (query_host resolve_A host w) as [host' w1].
  reflexivity.
Qed.

(** X25: [query] with a budget of [tries] attempts returns the result of the
    attempt that succeeds after all earlier ones failed. *)
Lemma query_returns_first_success
    (host : Host) (tries : Z) (w : World) (k : nat) (result : Result) :
  let host' := fst (query_host resolve_A host w) in
  let w1 := snd (query_host resolve_A host w) in
  Z.of_nat k < tries ->
  (forall j, (j < k)%nat -> exists e, attempt_outcome (query_exchange host') j w1 = Raise e) ->
  attempt_outcome (query_exchange host') k w1 = Ok result ->
  fst (query query_exchange resolve_A host tries w) = Ok result.
Proof.
  intros host' w1 Hk Hfail Hok. rewrite query_runs_attempts.
  apply (attempts_first_success _ k); [lia | exact Hfail | exact Hok].
Qed.

(** X26: [query] raises the error of the last attempt when all fail. *)
Lemma query_raises_last_error (host : Host) (tries : Z) (w : World) :
  let host' := fst (query_host resolve_A host w) in
  let w1 := snd (query_host resolve_A host w) in
  1 <= tries ->
  (forall j, Z.of_nat j < tries ->
             exists e, attempt_outcome (query_exchange host') j w1 = Raise e) ->
  fst (query query_exchange resolve_A host tries w)
  = attempt_outcome (query_exchange host') (Z.to_nat tries - 1) w1.
Proof.
  intros host' w1 Htries Hfail. rewrite query_runs_attempts.
  replace (Z.to_nat tries) with (S (Z.to_nat tries - 1)) at 1 by lia.
  apply attempts_all_fail. intros j Hj. apply Hfail. lia.
Qed.

End Operations.

(** C4 on [ping] and [status]: the loop header reads the name [retries],
    which is bound neither in the function nor in the module (the parameter
    is [tries]).  Once the connection is open the call raises [NameError],
    whatever the budget and whatever the collaborator would do; no attempt
    is made. *)
Theorem C4_ping_status_raise_NameError
    (World Result : Type)
    (open_connection : World -> res unit * World)
    (close_writer : World -> World)
    (ping_exchange status_exchange : M World Result)
    (tries : Z) (w : World) :
  fst (ping open_connection close_writer ping_exchange tries w)
  = match fst (open_connection w) with
    | Ok _ => Raise (NameError "retries")
    | Raise e => Raise e
    end /\
  fst (status open_connection close_writer status_exchange tries w)
  = match fst (open_connection w) with
    | Ok _ => Raise (NameError "retries")
    | Raise e => Raise e
    end.
Proof.
  unfold ping, status, with_tcp_connection.
  destruct (open_connection w) as [[u|e] w1]; split; reflexivity.
Qed.

(** The scripted collaborator [flaky]: [query] returns the third attempt's
    result, and raises the third attempt's error when the collaborator never
    succeeds; [ping] makes no exchange at all. *)
Example query_third_attempt :
  query (fun _ : unit => flaky 3) (fun _ w => (Ok [], w)) tt 3 0%nat
  = (Ok 3, 3%nat).
Proof. reflexivity. Qed.

Example query_exhausted :
  query (fun _ : unit => flaky 0) (fun _ w => (Ok [], w)) tt 3 0%nat
  = (Raise (OtherError 3), 3%nat).
Proof. reflexivity. Qed.

Example ping_first_attempt_would_succeed :
  ping (fun w => (Ok tt, w)) (fun w => w) (flaky 1) 3 0%nat
  = (Raise (NameError "retries"), 0%nat).
Proof. reflexivity. Qed.

(** * Further properties of the framing layer *)

(** ** Fixed-width integers *)

Lemma be_bytes_length (n : nat) (v : Z) : length (be_bytes n v) = n.
Proof. induction n as [|n IH]; [reflexivity|]. simpl. rewrite IH. reflexivity. Qed.

Lemma be_bytes_fold (n : nat) :
  forall (v acc : Z),
    fold_left (fun acc x => Z.lor (Z.shiftl acc 8) x) (be_bytes n v) acc
    = Z.lor (Z.shiftl acc (8 * Z.of_nat n)) (Z.land v (Z.ones (8 * Z.of_nat n))).
Proof.
  induction n as [|n IH]; intros v acc.
  - cbn [be_bytes fold_left]. change (8 * Z.of_nat 0) with 0.
    rewrite Z.shiftl_0_r. change (Z.ones 0) with 0.
    rewrite Z.land_0_r, Z.lor_0_r. reflexivity.
  - cbn [be_bytes fold_left]. rewrite IH.
    replace (8 * Z.of_nat (S n)) with (8 * Z.of_nat n + 8) by lia.
    change 0xFF with (Z.ones 8).
    assert (Hn : 0 <= 8 * Z.of_nat n) by lia. clear IH.
    generalize dependent (8 * Z.of_nat n). intros k Hk.
    Z.bitblast.
    match goal with
    | |- context [Z.testbit acc ?l] => rewrite (Z.testbit_neg_r acc l) by lia
    end.
    reflexivity.
Qed.

Lemma be_value_be_bytes (n : nat) (v : Z) :
  be_value (be_bytes n v) = v mod 2 ^ (8 * Z.of_nat n).
Proof.
  unfold be_value. rewrite be_bytes_fold.
  rewrite Z.shiftl_0_l, Z.lor_0_l. apply Z.land_ones. lia.
Qed.

(** Reading [v mod 2h] as a signed number gives [v] back on [-h, h). *)
Lemma signed_wrap (h v : Z) :
  0 < h -> - h <= v < h ->
  (if h <=? v mod (2 * h) then v mod (2 * h) - 2 * h else v mod (2 * h)) = v.
Proof.
  intros Hh Hv. destruct (Z.neg_nonneg_cases v) as [Hneg | Hpos].
  - replace (v mod (2 * h)) with (v + 2 * h).
    + replace (h <=? v + 2 * h) with true by (symmetry; apply Z.leb_le; lia).
      lia.
    + apply Z.mod_unique with (q := -1); lia.
  - rewrite Z.mod_small by lia.
    replace (h <=? v) with false by (symmetry; apply Z.leb_gt; lia).
    reflexivity.
Qed.

Lemma struct_unpack_pack (f : format) (v : Z) :
  format_min f <= v <= format_max f ->
  struct_pack f v = Ok (be_bytes (format_size f) v) /\
  struct_unpack f (be_bytes (format_size f) v) = Ok v.
Proof.
  intros Hv. split.
  - unfold struct_pack.
    replace ((format_min f <=? v) && (v <=? format_max f)) with true;
      [reflexivity|].
    symmetry. apply andb_true_intro. split; apply Z.leb_le; lia.
  - unfold struct_unpack. rewrite be_bytes_length, Nat.eqb_refl.
    cbv zeta. rewrite be_value_be_bytes. fold (format_bits f). f_equal.
    unfold format_min, format_max in Hv.
    assert (Hbits : 2 ^ format_bits f = 2 * 2 ^ (format_bits f - 1)).
    { rewrite <- Z.pow_succ_r by (destruct f; cbv; discriminate).
      f_equal. lia. }
    assert (Hpos : 0 < 2 ^ (format_bits f - 1))
      by (apply Z.pow_pos_nonneg; [lia | destruct f; cbv; discriminate]).
    destruct (format_signed f); cbn [andb].
    + rewrite Hbits. apply signed_wrap; [exact Hpos | lia].
    + apply Z.mod_small. lia.
Qed.

Lemma read_fixed_eq {C : Type} `{ConnectionOps C} (f : format) :
  read_fixed f = (b <- read (Z.of_nat (format_size f)) ;; _unpack f b).
Proof. destruct f; reflexivity. Qed.

Lemma write_fixed_eq {C : Type} `{ConnectionOps C} (f : format) (v : Z) :
  write_fixed f v = (b <- _pack f v ;; write (Bytes b)).
Proof. destruct f; reflexivity. Qed.

Lemma slice_prefix {A} (l1 l2 : list A) :
  slice_to (l1 ++ l2) (len l1) = l1 /\ slice_from (l1 ++ l2) (len l1) = l2.
Proof.
  unfold slice_to, slice_from.
  replace (0 <=? len l1) with true by (symmetry; apply Z.leb_le, len_nonneg).
  unfold len. rewrite Nat2Z.id.
  rewrite firstn_app, firstn_all, Nat.sub_diag, app_nil_r.
  rewrite skipn_app, skipn_all, Nat.sub_diag. split; reflexivity.
Qed.

Lemma buffered_read_prefix (snt : pyobj) (bs rest : bytes) :
  read (len bs) {| sent := snt; received := bs ++ rest |}
  = (Ok bs, {| sent := snt; received := rest |}).
Proof.
  cbn [read Buffered_ops]. unfold Buffered.read. cbn [received sent].
  destruct (slice_prefix bs rest) as [-> ->]. reflexivity.
Qed.

Lemma write_fixed_state (f : format) (v : Z) (s rcv : bytes) :
  format_min f <= v <= format_max f ->
  write_fixed f v {| sent := Bytes s; received := rcv |}
  = (Ok tt, {| sent := Bytes (s ++ be_bytes (format_size f) v); received := rcv |}).
Proof.
  intros Hv. rewrite write_fixed_eq. unfold _pack.
  rewrite (proj1 (struct_unpack_pack f v Hv)).
  erewrite bind_ok by reflexivity. apply buffered_write_bytes.
Qed.

Lemma read_fixed_state (f : format) (snt : pyobj) (bs rest : bytes) :
  length bs = format_size f ->
  read_fixed f {| sent := snt; received := bs ++ rest |}
  = (struct_unpack f bs, {| sent := snt; received := rest |}).
Proof.
  intros Hlen. rewrite read_fixed_eq. rewrite <- Hlen. fold (len bs).
  erewrite bind_ok by apply buffered_read_prefix. reflexivity.
Qed.

(** X1: Each of the six fixed-width formats round-trips over its whole range:
    the writing method appends as many bytes as the format has, and the
    reading method gives the value back from them and consumes no more. *)
Theorem fixed_width_roundtrip (f : format) (v : Z) (s rcv : bytes) :
  format_min f <= v <= format_max f ->
  exists bs : bytes,
    length bs = format_size f /\
    write_fixed f v {| sent := Bytes s; received := rcv |}
    = (Ok tt, {| sent := Bytes (s ++ bs); received := rcv |}) /\
    forall (snt : pyobj) (rest : bytes),
      read_fixed f {| sent := snt; received := bs ++ rest |}
      = (Ok v, {| sent := snt; received := rest |}).
Proof.
  intros Hv. exists (be_bytes (format_size f) v).
  split; [apply be_bytes_length|]. split.
  - apply write_fixed_state. exact Hv.
  - intros snt rest. rewrite read_fixed_state by apply be_bytes_length.
    rewrite (proj2 (struct_unpack_pack f v Hv)). reflexivity.
Qed.

Lemma fixed_width_roundtrip_witness :
  format_min fmt_i <= -2 <= format_max fmt_i /\
  exists bs : bytes,
    length bs = format_size fmt_i /\
    write_int (-2) {| sent := Bytes []; received := [] |}
    = (Ok tt, {| sent := Bytes ([] ++ bs); received := [] |}) /\
    forall (snt : pyobj) (rest : bytes),
      read_int {| sent := snt; received := bs ++ rest |}
      = (Ok (-2), {| sent := snt; received := rest |}).
Proof.
  assert (Hv : format_min fmt_i <= -2 <= format_max fmt_i)
    by (vm_compute; split; discriminate).
  split; [exact Hv|].
  apply (fixed_width_roundtrip fmt_i (-2) [] [] Hv).
Defined.

(** X2: A value outside the range of the format is refused before anything is
    written, on every kind of connection. *)
Theorem fixed_width_out_of_range {C : Type} `{ConnectionOps C}
    (f : format) (v : Z) (self : C) :
  v < format_min f \/ format_max f < v ->
  write_fixed f v self = (Raise StructError, self).
Proof.
  intros Hv. rewrite write_fixed_eq. unfold _pack, struct_pack.
  replace ((format_min f <=? v) && (v <=? format_max f)) with false;
    [reflexivity|].
  symmetry. apply andb_false_iff.
  destruct Hv as [Hlow | Hhigh]; [left | right]; apply Z.leb_gt; assumption.
Qed.

Lemma fixed_width_out_of_range_witness :
  (65536 < format_min fmt_H \/ format_max fmt_H < 65536) /\
  write_ushort 65536 Connection_init = (Raise StructError, Connection_init).
Proof.
  assert (Hv : 65536 < format_min fmt_H \/ format_max fmt_H < 65536)
    by (right; vm_compute; reflexivity).
  split; [exact Hv|].
  apply (fixed_width_out_of_range fmt_H 65536 Connection_init Hv).
Defined.

(** X3: A buffered connection that holds fewer bytes than the format needs
    hands them all to [struct.unpack], which raises; the bytes are gone
    from the receive queue. *)
Theorem fixed_width_short_buffer (f : format) (self : Connection) :
  (length (received self) < format_size f)%nat ->
  read_fixed f self
  = (Raise StructError, {| sent := sent self; received := [] |}).
Proof.
  intros Hshort. rewrite read_fixed_eq.
  assert (Hread : read (Z.of_nat (format_size f)) self
                  = (Ok (received self), {| sent := sent self; received := [] |})).
  { cbn [read Buffered_ops]. unfold Buffered.read, slice_to, slice_from.
    replace (0 <=? Z.of_nat (format_size f)) with true
      by (symmetry; apply Z.leb_le; lia).
    rewrite Nat2Z.id, firstn_all2, skipn_all2 by lia. reflexivity. }
  erewrite bind_ok by exact Hread.
  unfold _unpack, lift, struct_unpack.
  replace (Nat.eqb (length (received self)) (format_size f)) with false;
    [reflexivity|].
  symmetry. apply Nat.eqb_neq. lia.
Qed.

Lemma fixed_width_short_buffer_witness :
  (length [1; 2; 3] < format_size fmt_I)%nat /\
  read_uint {| sent := Bytes []; received := [1; 2; 3] |}
  = (Raise StructError, {| sent := Bytes []; received := [] |}).
Proof.
  assert (Hs : (length [1; 2; 3] < format_size fmt_I)%nat) by (simpl; lia).
  split; [exact Hs|].
  apply (fixed_width_short_buffer fmt_I
           {| sent := Bytes []; received := [1; 2; 3] |} Hs).
Defined.

(** X4: What a signed write looks like to the unsigned reader of the same
    width: the value modulo [2 ^ bits]. *)
Theorem fixed_width_signed_as_unsigned (f g : format) (v : Z) :
  format_size f = format_size g ->
  format_signed g = false ->
  format_min f <= v <= format_max f ->
  exists bs : bytes,
    written (write_fixed f v) = Ok bs /\
    reading (read_fixed g) bs = Ok (v mod 2 ^ format_bits f).
Proof.
  intros Hsize Hunsigned Hv. exists (be_bytes (format_size f) v). split.
  - apply (written_ok _ tt _ []). apply (write_fixed_state f v [] [] Hv).
  - rewrite reading_eq.
    rewrite <- (app_nil_r (be_bytes (format_size f) v)).
    rewrite read_fixed_state by (rewrite be_bytes_length; exact Hsize).
    cbn [fst]. unfold struct_unpack.
    rewrite be_bytes_length, Hsize, Nat.eqb_refl, Hunsigned. cbn [andb].
    rewrite <- Hsize, be_value_be_bytes. reflexivity.
Qed.

Lemma fixed_width_signed_as_unsigned_witness :
  format_size fmt_h = format_size fmt_H /\
  format_signed fmt_H = false /\
  format_min fmt_h <= -1 <= format_max fmt_h /\
  exists bs : bytes,
    written (write_short (-1)) = Ok bs /\
    reading read_ushort bs = Ok ((-1) mod 2 ^ format_bits fmt_h).
Proof.
  assert (Hv : format_min fmt_h <= -1 <= format_max fmt_h)
    by (vm_compute; split; discriminate).
  split; [reflexivity|]. split; [reflexivity|]. split; [exact Hv|].
  apply (fixed_width_signed_as_unsigned fmt_h fmt_H (-1) eq_refl eq_refl Hv).
Defined.

Lemma be_bytes_base256 (n : nat) :
  forall (v acc : Z),
    Forall (fun b => 0 <= b < 256) (be_bytes n v) /\
    fold_left (fun acc x => 256 * acc + x) (be_bytes n v) acc
    = acc * 2 ^ (8 * Z.of_nat n) + v mod 2 ^ (8 * Z.of_nat n).
Proof.
  induction n as [|n IH]; intros v acc.
  - cbn [be_bytes fold_left]. split; [constructor|].
    change (2 ^ (8 * Z.of_nat 0)) with 1. rewrite Z.mod_1_r. lia.
  - cbn [be_bytes fold_left].
    assert (Hbyte : Z.land (Z.shiftr v (8 * Z.of_nat n)) 0xFF
                    = (v / 2 ^ (8 * Z.of_nat n)) mod 256).
    { change 0xFF with (Z.ones 8).
      rewrite Z.land_ones, Z.shiftr_div_pow2 by lia. reflexivity. }
    rewrite Hbyte.
    pose proof (Z.mod_pos_bound (v / 2 ^ (8 * Z.of_nat n)) 256 ltac:(lia)) as Hb.
    destruct (IH v (256 * acc + (v / 2 ^ (8 * Z.of_nat n)) mod 256)) as [Hall Hfold].
    split; [constructor; [exact Hb | exact Hall]|].
    rewrite Hfold.
    replace (8 * Z.of_nat (S n)) with (8 * Z.of_nat n + 8) by lia.
    rewrite Z.pow_add_r by lia. change (2 ^ 8) with 256.
    assert (Hp : 0 < 2 ^ (8 * Z.of_nat n)) by (apply Z.pow_pos_nonneg; lia).
    rewrite (Z.rem_mul_r v (2 ^ (8 * Z.of_nat n)) 256) by lia.
    ring.
Qed.

(** X5: The wire order is big-endian: the bytes written are proper bytes and,
    read as base-256 digits from the first to the last, spell the value
    modulo [2 ^ bits] (the value itself, for an unsigned format). *)
Theorem fixed_width_big_endian (f : format) (v : Z) :
  format_min f <= v <= format_max f ->
  exists bs : bytes,
    written (write_fixed f v) = Ok bs /\
    Forall (fun b => 0 <= b < 256) bs /\
    fold_left (fun acc x => 256 * acc + x) bs 0 = v mod 2 ^ format_bits f.
Proof.
  intros Hv. exists (be_bytes (format_size f) v).
  destruct (be_bytes_base256 (format_size f) v 0) as [Hall Hfold].
  split; [|split].
  - apply (written_ok _ tt _ []). apply (write_fixed_state f v [] [] Hv).
  - exact Hall.
  - rewrite Hfold. unfold format_bits. lia.
Qed.

Lemma fixed_width_big_endian_witness :
  format_min fmt_H <= 25565 <= format_max fmt_H /\
  exists bs : bytes,
    written (write_ushort 25565) = Ok bs /\
    Forall (fun b => 0 <= b < 256) bs /\
    fold_left (fun acc x => 256 * acc + x) bs 0 = 25565 mod 2 ^ format_bits fmt_H.
Proof.
  assert (Hv : format_min fmt_H <= 25565 <= format_max fmt_H)
    by (vm_compute; split; discriminate).
  split; [exact Hv|]. apply (fixed_width_big_endian fmt_H 25565 Hv).
Defined.

(** ** The receive queue of a buffered connection *)

Lemma slice_split {A} (l : list A) (n : Z) : slice_to l n ++ slice_from l n = l.
Proof.
  unfold slice_to, slice_from. destruct (0 <=? n); apply firstn_skipn.
Qed.

(** X6: [read] on a buffered connection never raises and never loses a byte,
    whatever length is asked: what it returns, followed by what it leaves,
    is what was held, and [sent] is not touched.  For a length that is not
    negative it returns as many bytes as asked or as are held, whichever is
    less; a negative length counts from the end, as slices do. *)
Theorem buffered_read_conserves (n : Z) (self : Connection) :
  exists (result : bytes) (self' : Connection),
    Buffered.read n self = (Ok result, self') /\
    sent self' = sent self /\
    result ++ received self' = received self /\
    len result = (if 0 <=? n then Z.min n (len (received self))
                  else Z.max 0 (len (received self) + n)).
Proof.
  exists (slice_to (received self) n),
         {| sent := sent self; received := slice_from (received self) n |}.
  split; [reflexivity|]. split; [reflexivity|]. split.
  - apply slice_split.
  - unfold slice_to. destruct (0 <=? n) eqn:Hn;
      [apply Z.leb_le in Hn | apply Z.leb_gt in Hn];
      unfold len; rewrite length_firstn; unfold len; lia.
Qed.

(** X7: [receive] then [remaining] and [read]: bytes come out in the order they
    were received, after those already queued, and [remaining] counts
    them. *)
Theorem receive_then_read (data : bytes) (self : Connection) :
  exists self1 self2 : Connection,
    Buffered.receive (Bytes data) self = (Ok tt, self1) /\
    Buffered.remaining self1 = (Ok (len (received self) + len data), self1) /\
    Buffered.read (len (received self)) self1 = (Ok (received self), self2) /\
    received self2 = data /\
    sent self2 = sent self.
Proof.
  exists {| sent := sent self; received := received self ++ data |},
         {| sent := sent self; received := data |}.
  split; [reflexivity|]. split; [|split; [|split; reflexivity]].
  - unfold Buffered.remaining. cbn [received]. rewrite len_app. reflexivity.
  - apply (buffered_read_prefix (sent self) (received self) data).
Qed.

(** ** More on the varint codec *)

Lemma lor_below_pow2 (a b k : Z) :
  0 <= k -> 0 <= a < 2 ^ k -> 0 <= b < 2 ^ k -> 0 <= Z.lor a b < 2 ^ k.
Proof.
  intros Hk Ha Hb.
  rewrite <- (Z.mod_small a (2 ^ k)), <- (Z.mod_small b (2 ^ k)) by lia.
  rewrite <- !Z.land_ones, <- Z.land_lor_distr_l, Z.land_ones by lia.
  apply Z.mod_pos_bound. apply Z.pow_pos_nonneg; lia.
Qed.

Lemma group_below_pow2 (part i : Z) :
  0 <= i ->
  0 <= Z.shiftl (Z.land part 0x7F) (7 * i) < 2 ^ (7 * (i + 1)).
Proof.
  intros Hi. change 0x7F with (Z.ones 7).
  rewrite Z.land_ones, Z.shiftl_mul_pow2 by lia.
  pose proof (Z.mod_pos_bound part (2 ^ 7) ltac:(lia)) as Hm.
  change (2 ^ 7) with 128 in *.
  replace (7 * (i + 1)) with (7 + 7 * i) by lia.
  rewrite Z.pow_add_r by lia. change (2 ^ 7) with 128.
  assert (Hp : 0 < 2 ^ (7 * i)) by (apply Z.pow_pos_nonneg; lia).
  nia.
Qed.

Lemma read_varint_loop_range {C : Type} `{ConnectionOps C} (n : nat) :
  forall (i acc v : Z) (self self' : C),
    0 <= i ->
    0 <= acc < 2 ^ (7 * i) ->
    read_varint_loop n i acc self = (Ok v, self') ->
    0 <= v < 2 ^ (7 * (i + Z.of_nat n)).
Proof.
  induction n as [|n IH]; intros i acc v self self' Hi Hacc Hrun;
    cbn [read_varint_loop] in Hrun.
  - discriminate Hrun.
  - unfold bind at 1 in Hrun.
    destruct (read 1 self) as [[b|e] self1]; [|discriminate Hrun].
    unfold bind at 1 in Hrun. unfold lift in Hrun.
    destruct (ord b) as [part|e]; [|discriminate Hrun].
    assert (Hnew : 0 <= Z.lor acc (Z.shiftl (Z.land part 0x7F) (7 * i))
                   < 2 ^ (7 * (i + 1))).
    { apply lor_below_pow2; [lia| |apply group_below_pow2; exact Hi].
      split; [lia|]. apply Z.lt_le_trans with (2 ^ (7 * i)); [lia|].
      apply Z.pow_le_mono_r; lia. }
    destruct (Z.land part 0x80 =? 0).
    + assert (Hv : v = Z.lor acc (Z.shiftl (Z.land part 0x7F) (7 * i)))
        by (unfold ret in Hrun; congruence).
      rewrite Hv. split; [lia|]. apply Z.lt_le_trans with (2 ^ (7 * (i + 1))); [lia|].
      apply Z.pow_le_mono_r; lia.
    + apply IH in Hrun; [|lia|exact Hnew].
      replace (i + Z.of_nat (S n)) with (i + 1 + Z.of_nat n) by lia.
      exact Hrun.
Qed.

(** X8: Whatever bytes the connection supplies, a value [read_varint] returns
    is never negative and always below [2 ^ 35]; this holds on every kind
    of connection. *)
Theorem read_varint_range {C : Type} `{ConnectionOps C}
    (self self' : C) (v : Z) :
  read_varint self = (Ok v, self') -> 0 <= v < 2 ^ 35.
Proof.
  intros Hrun. apply (read_varint_loop_range 5 0 0 v self self'); [lia|lia|].
  exact Hrun.
Qed.

Lemma read_varint_range_witness :
  0 <= 34359738367 < 2 ^ 35.
Proof.
  apply (read_varint_range
           {| sent := Bytes []; received := [255; 255; 255; 255; 127; 9] |}
           {| sent := Bytes []; received := [9] |} 34359738367).
  vm_compute. reflexivity.
Defined.

Lemma read_varint_loop_truncated (bs : bytes) :
  forall (n : nat) (i acc : Z) (snt : pyobj),
    (length bs < n)%nat ->
    Forall (fun b => Z.land b 0x80 <> 0) bs ->
    read_varint_loop n i acc {| sent := snt; received := bs |}
    = (Raise (TypeError_ord 0), {| sent := snt; received := [] |}).
Proof.
  induction bs as [|b bs IH]; intros n i acc snt Hlen Hall;
    (destruct n as [|n]; [simpl in Hlen; lia|]); cbn [read_varint_loop].
  - reflexivity.
  - inversion Hall as [|? ? Hb Hbs]; subst.
    erewrite bind_ok by apply buffered_read_1. cbn [ord].
    erewrite bind_ok by reflexivity.
    apply Z.eqb_neq in Hb. rewrite Hb.
    apply IH; [simpl in Hlen; lia | exact Hbs].
Qed.

(** X9: A buffered connection that runs dry in the middle of a varint (every
    byte held asks for another one, and fewer than five are held) makes
    [read_varint] raise the [TypeError] of [ord] on an empty read, not an
    I/O error; the bytes held are consumed. *)
Theorem read_varint_truncated (bs : bytes) (snt : pyobj) :
  (length bs < 5)%nat ->
  Forall (fun b => Z.land b 0x80 <> 0) bs ->
  read_varint {| sent := snt; received := bs |}
  = (Raise (TypeError_ord 0), {| sent := snt; received := [] |}).
Proof.
  intros Hlen Hall. apply read_varint_loop_truncated; assumption.
Qed.

Lemma read_varint_truncated_witness :
  (length [200; 129] < 5)%nat /\
  Forall (fun b => Z.land b 0x80 <> 0) [200; 129] /\
  read_varint {| sent := Bytes []; received := [200; 129] |}
  = (Raise (TypeError_ord 0), {| sent := Bytes []; received := [] |}).
Proof.
  assert (Hlen : (length [200; 129] < 5)%nat) by (simpl; lia).
  assert (Hall : Forall (fun b => Z.land b 0x80 <> 0) [200; 129])
    by (repeat constructor; discriminate).
  split; [exact Hlen|]. split; [exact Hall|].
  apply (read_varint_truncated [200; 129] (Bytes []) Hlen Hall).
Defined.

(** X10: A value [write_varint] refuses has by then left five bytes in the
    outgoing accumulator, each with the continuation bit: the failed call
    is not without effect. *)
Theorem write_varint_refusal_leaves_bytes (v : Z) (s rcv : bytes) :
  2 ^ 35 <= v ->
  exists junk : bytes,
    length junk = 5%nat /\
    Forall (fun b => Z.land b 0x80 = 0x80) junk /\
    write_varint v {| sent := Bytes s; received := rcv |}
    = (Raise (ValueError_varint_too_big v),
       {| sent := Bytes (s ++ junk); received := rcv |}).
Proof.
  intros Hv. exists (continuation_bytes 5 v). split; [reflexivity|]. split.
  - cbn [continuation_bytes]. repeat constructor; apply cont_byte_bit7.
  - unfold write_varint. apply write_varint_loop_gives_up. right. exact Hv.
Qed.

Lemma write_varint_refusal_leaves_bytes_witness :
  2 ^ 35 <= 2 ^ 40 /\
  exists junk : bytes,
    length junk = 5%nat /\
    Forall (fun b => Z.land b 0x80 = 0x80) junk /\
    write_varint (2 ^ 40) {| sent := Bytes [7]; received := [] |}
    = (Raise (ValueError_varint_too_big (2 ^ 40)),
       {| sent := Bytes ([7] ++ junk); received := [] |}).
Proof.
  split; [lia|]. apply (write_varint_refusal_leaves_bytes (2 ^ 40) [7] []). lia.
Defined.

Lemma cont_byte_value (r : Z) :
  Z.lor (Z.land r 0x7F) 0x80 = r mod 128 + 128.
Proof.
  pose proof (Z.add_lor_land (Z.land r 0x7F) 0x80) as Hadd.
  assert (Hz : Z.land (Z.land r 0x7F) 0x80 = 0).
  { change 0x7F with (Z.ones 7). change 0x80 with (Z.shiftl (Z.ones 1) 7).
    Z.bitblast. }
  rewrite Hz, Z.add_0_r in Hadd. rewrite Hadd.
  change 0x7F with (Z.ones 7). rewrite Z.land_ones by lia. reflexivity.
Qed.

Lemma write_varint_loop_shape (k : nat) :
  forall (n : nat) (value r : Z) (s rcv : bytes),
    (k < n)%nat ->
    k = 0%nat \/ 2 ^ (7 * Z.of_nat k) <= r ->
    0 <= r < 2 ^ (7 * Z.of_nat (S k)) ->
    exists (init : bytes) (final : Z),
      length init = k /\
      Forall (fun b => 128 <= b <= 255) init /\
      0 <= final < 128 /\
      write_varint_loop n value r {| sent := Bytes s; received := rcv |}
      = (Ok tt, {| sent := Bytes (s ++ init ++ [final]); received := rcv |}).
Proof.
  induction k as [|k IH]; intros n value r s rcv Hn Hlow Hr;
    (destruct n as [|n]; [lia|]); cbn [write_varint_loop].
  - change (2 ^ (7 * Z.of_nat 1)) with 128 in Hr.
    replace (Z.land r (Z.lnot 127) =? 0) with true
      by (symmetry; apply Z.eqb_eq, land_lnot_127; exact Hr).
    exists [], r. split; [reflexivity|]. split; [constructor|].
    split; [exact Hr|].
    rewrite pack_B_byte by lia. apply buffered_write_bytes.
  - destruct Hlow as [Hk | Hlow]; [discriminate Hk|].
    assert (Hpow : forall j : nat, 2 ^ (7 * Z.of_nat (S j)) = 128 * 2 ^ (7 * Z.of_nat j)).
    { intros j. replace (7 * Z.of_nat (S j)) with (7 + 7 * Z.of_nat j) by lia.
      rewrite Z.pow_add_r by lia. reflexivity. }
    assert (Hp : 0 < 2 ^ (7 * Z.of_nat k)) by (apply Z.pow_pos_nonneg; lia).
    rewrite (Hpow (S k)) in Hr. rewrite (Hpow k) in Hlow, Hr.
    destruct (Z.land r (Z.lnot 127) =? 0) eqn:Hsmall.
    { apply Z.eqb_eq, land_lnot_127 in Hsmall. nia. }
    assert (Hq : 2 ^ (7 * Z.of_nat k) <= Z.shiftr r 7 < 128 * 2 ^ (7 * Z.of_nat k)).
    { rewrite Z.shiftr_div_pow2 by lia. change (2 ^ 7) with 128. split.
      - apply Z.div_le_lower_bound; lia.
      - apply Z.div_lt_upper_bound; lia. }
    set (b := Z.lor (Z.land r 127) 128).
    destruct (IH n value (Z.shiftr r 7) (s ++ [b]) rcv) as
      (init & final & Hlen & Hall & Hfinal & Hrun).
    + lia.
    + destruct k; [left; reflexivity | right; lia].
    + rewrite (Hpow k). lia.
    + exists (b :: init), final.
      split; [simpl; rewrite Hlen; reflexivity|]. split.
      * constructor; [|exact Hall]. subst b. rewrite cont_byte_value.
        pose proof (Z.mod_pos_bound r 128 ltac:(lia)). lia.
      * split; [exact Hfinal|].
        rewrite pack_B_byte by apply cont_byte_range.
        erewrite bind_ok by reflexivity.
        erewrite bind_ok by apply buffered_write_bytes.
        refine (eq_trans Hrun _). rewrite <- app_assoc. reflexivity.
Qed.

(** X11: The encoding is the shortest one: a value of [k + 1] seven-bit groups
    is written as [k] bytes from 128 to 255 (continuation bit set) and one
    final byte below 128. *)
Theorem varint_encoding_shape (k : nat) (v : Z) :
  (k < 5)%nat ->
  k = 0%nat \/ 2 ^ (7 * Z.of_nat k) <= v ->
  0 <= v < 2 ^ (7 * Z.of_nat (S k)) ->
  exists (init : bytes) (final : Z),
    written (write_varint v) = Ok (init ++ [final]) /\
    length init = k /\
    Forall (fun b => 128 <= b <= 255) init /\
    0 <= final < 128.
Proof.
  intros Hk Hlow Hv.
  destruct (write_varint_loop_shape k 5 v v [] [] Hk Hlow Hv)
    as (init & final & Hlen & Hall & Hfinal & Hrun).
  exists init, final. split; [|auto].
  apply (written_ok _ tt _ []). exact Hrun.
Qed.

Lemma varint_encoding_shape_witness :
  (2 < 5)%nat /\
  (2%nat = 0%nat \/ 2 ^ (7 * Z.of_nat 2) <= 25565) /\
  0 <= 25565 < 2 ^ (7 * Z.of_nat 3) /\
  exists (init : bytes) (final : Z),
    written (write_varint 25565) = Ok (init ++ [final]) /\
    length init = 2%nat /\
    Forall (fun b => 128 <= b <= 255) init /\
    0 <= final < 128.
Proof.
  assert (Hlow : 2%nat = 0%nat \/ 2 ^ (7 * Z.of_nat 2) <= 25565)
    by (right; vm_compute; discriminate).
  assert (Hv : 0 <= 25565 < 2 ^ (7 * Z.of_nat 3))
    by (vm_compute; split; [discriminate | reflexivity]).
  split; [lia|]. split; [exact Hlow|]. split; [exact Hv|].
  apply (varint_encoding_shape 2 25565 ltac:(lia) Hlow Hv).
Defined.

(** ** More on the string codecs *)

Lemma utf_roundtrip_ascii_witness :
  Forall (fun c => 0 <= c < 128) [104; 105] /\
  len [104; 105] < 2 ^ 35 /\
  exists w : bytes,
    written (write_utf [104; 105]) = Ok w /\ reading read_utf w = Ok [104; 105].
Proof.
  assert (Hascii : Forall (fun c => 0 <= c < 128) [104; 105])
    by (repeat constructor; lia).
  assert (Hlen : len [104; 105] < 2 ^ 35) by (vm_compute; reflexivity).
  split; [exact Hascii|]. split; [exact Hlen|].
  apply (utf_roundtrip_ascii [104; 105] Hascii Hlen).
Defined.

(** X13: A string UTF-8 cannot encode (one with a lone surrogate, say) makes
    [write_utf] raise only after the length prefix has been written: the
    outgoing accumulator is left with a prefix and no payload. *)
Theorem write_utf_unencodable_leaves_prefix (value : str) (s rcv : bytes) :
  utf8_encode value = Raise UnicodeEncodeError ->
  len value < 2 ^ 35 ->
  exists prefix : bytes,
    prefix <> [] /\
    reading read_varint prefix = Ok (len value) /\
    write_utf value {| sent := Bytes s; received := rcv |}
    = (Raise UnicodeEncodeError,
       {| sent := Bytes (s ++ prefix); received := rcv |}).
Proof.
  intros Henc Hlen.
  assert (Hrange : 0 <= len value < 2 ^ 35)
    by (split; [apply len_nonneg | exact Hlen]).
  destruct (varint_roundtrip_state (len value) s rcv Hrange)
    as (prefix & _ & Hw & Hrd).
  exists prefix. split; [|split].
  - intros Hnil. subst prefix. specialize (Hrd (Bytes []) []).
    cbn in Hrd. discriminate Hrd.
  - rewrite reading_eq. specialize (Hrd (Bytes []) []).
    rewrite app_nil_r in Hrd. rewrite Hrd. reflexivity.
  - unfold write_utf. erewrite bind_ok by exact Hw.
    rewrite Henc. reflexivity.
Qed.

Lemma write_utf_unencodable_leaves_prefix_witness :
  utf8_encode [0x61; 0xD800] = Raise UnicodeEncodeError /\
  len [0x61; 0xD800] < 2 ^ 35 /\
  exists prefix : bytes,
    prefix <> [] /\
    reading read_varint prefix = Ok (len [0x61; 0xD800]) /\
    write_utf [0x61; 0xD800] {| sent := Bytes []; received := [] |}
    = (Raise UnicodeEncodeError,
       {| sent := Bytes ([] ++ prefix); received := [] |}).
Proof.
  assert (Hlen : len [0x61; 0xD800] < 2 ^ 35) by (vm_compute; reflexivity).
  split; [reflexivity|]. split; [exact Hlen|].
  apply (write_utf_unencodable_leaves_prefix [0x61; 0xD800] [] [] eq_refl Hlen).
Defined.

(** *** Null-terminated strings *)

Lemma latin1_encode_ok (value : str) :
  Forall (fun c => 0 <= c <= 255) value -> latin1_encode value = Ok value.
Proof.
  intros Hall. unfold latin1_encode.
  replace (forallb (fun c => (0 <=? c) && (c <=? 255)) value) with true;
    [reflexivity|].
  symmetry. apply forallb_forall. intros c Hc.
  rewrite Forall_forall in Hall. specialize (Hall c Hc).
  apply andb_true_intro. split; apply Z.leb_le; lia.
Qed.

Lemma still_reading_test (result : bytes) :
  still_reading result ->
  (len result =? 0) || negb (last result 0 =? 0) = true.
Proof.
  intros [Hnil | Hlast].
  - subst. reflexivity.
  - apply orb_true_iff. right. apply negb_true_iff, Z.eqb_neq. exact Hlast.
Qed.

Lemma still_reading_snoc (result : bytes) (b : Z) :
  b <> 0 -> still_reading (result ++ [b]).
Proof. intros Hb. right. rewrite last_last. exact Hb. Qed.

Lemma read_ascii_loop_finds_terminator (pre : bytes) :
  forall (fuel : nat) (result rest : bytes) (snt : pyobj),
    still_reading result ->
    Forall (fun b => b <> 0) pre ->
    (length pre + 2 <= fuel)%nat ->
    read_ascii_loop fuel result {| sent := snt; received := pre ++ 0 :: rest |}
    = Some (Ok (result ++ pre ++ [0]), {| sent := snt; received := rest |}).
Proof.
  induction pre as [|b pre IH]; intros fuel result rest snt Hres Hpre Hfuel.
  - destruct fuel as [|[|fuel]]; try (simpl in Hfuel; lia).
    cbn [read_ascii_loop app]. rewrite (still_reading_test result Hres).
    rewrite buffered_read_1.
    replace ((len (result ++ [0]) =? 0) || negb (last (result ++ [0]) 0 =? 0))
      with false; [reflexivity|].
    rewrite last_last, len_app. symmetry. apply orb_false_iff. split.
    + apply Z.eqb_neq. pose proof (len_nonneg result).
      change (len [0]) with 1. lia.
    + reflexivity.
  - destruct fuel as [|fuel]; [simpl in Hfuel; lia|].
    inversion Hpre as [|? ? Hb Hrest]; subst.
    cbn [read_ascii_loop app]. rewrite (still_reading_test result Hres).
    rewrite buffered_read_1.
    rewrite (IH fuel (result ++ [b]) rest snt).
    + rewrite <- app_assoc. reflexivity.
    + apply still_reading_snoc. exact Hb.
    + exact Hrest.
    + simpl in Hfuel. lia.
Qed.

Lemma read_ascii_stops_at_zero
    (pre rest : bytes) (snt : pyobj) (fuel : nat) :
  Forall (fun b => b <> 0) pre ->
  (length pre + 2 <= fuel)%nat ->
  read_ascii fuel {| sent := snt; received := pre ++ 0 :: rest |}
  = Some (Ok pre, {| sent := snt; received := rest |}).
Proof.
  intros Hpre Hfuel. unfold read_ascii.
  rewrite (read_ascii_loop_finds_terminator pre fuel [] rest snt);
    [|left; reflexivity|exact Hpre|exact Hfuel].
  cbn [app]. unfold latin1_decode, slice_to. cbn [Z.leb Z.compare].
  do 3 f_equal.
  replace (Z.to_nat (len (pre ++ [0]) + -1)) with (length pre)
    by (rewrite len_app; unfold len; simpl; lia).
  rewrite firstn_app, firstn_all, Nat.sub_diag. cbn [firstn].
  apply app_nil_r.
Qed.

(** X14: [read_ascii] on a buffered connection returns the bytes in front of the
    first zero byte, as characters, and consumes them and the zero byte;
    the loop has finished within [len + 2] tests of its condition. *)
Theorem read_ascii_reads_to_terminator
    (pre rest : bytes) (snt : pyobj) (fuel : nat) :
  Forall (fun b => b <> 0) pre ->
  (length pre + 2 <= fuel)%nat ->
  read_ascii fuel {| sent := snt; received := pre ++ 0 :: rest |}
  = Some (Ok pre, {| sent := snt; received := rest |}).
Proof. apply read_ascii_stops_at_zero. Qed.

Lemma read_ascii_reads_to_terminator_witness :
  Forall (fun b => b <> 0) [77; 67] /\
  (length [77; 67] + 2 <= 4)%nat /\
  read_ascii 4 {| sent := Bytes []; received := [77; 67] ++ 0 :: [5] |}
  = Some (Ok [77; 67], {| sent := Bytes []; received := [5] |}).
Proof.
  assert (Hpre : Forall (fun b => b <> 0) [77; 67])
    by (repeat constructor; discriminate).
  assert (Hfuel : (length [77; 67] + 2 <= 4)%nat) by (simpl; lia).
  split; [exact Hpre|]. split; [exact Hfuel|].
  apply (read_ascii_reads_to_terminator [77; 67] [5] (Bytes []) 4 Hpre Hfuel).
Defined.

(** X15: A string of characters from 1 to 255 round-trips through [write_ascii]
    and [read_ascii]: what is written is one byte per character and a zero
    byte, and reading stops exactly behind that zero byte. *)
Theorem ascii_roundtrip (value : str) (rest : bytes) (snt : pyobj) (fuel : nat) :
  Forall (fun c => 1 <= c <= 255) value ->
  (length value + 2 <= fuel)%nat ->
  written (write_ascii value) = Ok (value ++ [0]) /\
  read_ascii fuel {| sent := snt; received := (value ++ [0]) ++ rest |}
  = Some (Ok value, {| sent := snt; received := rest |}).
Proof.
  intros Hchars Hfuel. split.
  - apply (written_ok _ tt _ []). unfold write_ascii.
    rewrite latin1_encode_ok
      by (eapply Forall_impl; [|exact Hchars]; cbv beta; intros; lia).
    reflexivity.
  - rewrite <- app_assoc. cbn [app].
    apply read_ascii_stops_at_zero; [|exact Hfuel].
    eapply Forall_impl; [|exact Hchars]. cbv beta. intros; lia.
Qed.

Lemma ascii_roundtrip_witness :
  Forall (fun c => 1 <= c <= 255) [77; 233] /\
  (length [77; 233] + 2 <= 4)%nat /\
  written (write_ascii [77; 233]) = Ok ([77; 233] ++ [0]) /\
  read_ascii 4 {| sent := Bytes []; received := ([77; 233] ++ [0]) ++ [1] |}
  = Some (Ok [77; 233], {| sent := Bytes []; received := [1] |}).
Proof.
  assert (Hchars : Forall (fun c => 1 <= c <= 255) [77; 233])
    by (repeat constructor; lia).
  assert (Hfuel : (length [77; 233] + 2 <= 4)%nat) by (simpl; lia).
  split; [exact Hchars|]. split; [exact Hfuel|].
  apply (ascii_roundtrip [77; 233] [1] (Bytes []) 4 Hchars Hfuel).
Defined.

Lemma read_ascii_loop_spins (fuel : nat) :
  forall (result rcv : bytes) (snt : pyobj),
    still_reading result ->
    Forall (fun b => b <> 0) rcv ->
    read_ascii_loop fuel result {| sent := snt; received := rcv |} = None.
Proof.
  induction fuel as [|fuel IH]; intros result rcv snt Hres Hrcv;
    [reflexivity|].
  cbn [read_ascii_loop]. rewrite (still_reading_test result Hres).
  destruct rcv as [|b rcv].
  - assert (Hread : read 1 {| sent := snt; received := [] |}
                    = (Ok [], {| sent := snt; received := [] |}))
      by reflexivity.
    rewrite Hread, app_nil_r. apply IH; assumption.
  - inversion Hrcv as [|? ? Hb Hrest]; subst.
    rewrite buffered_read_1. apply IH; [|exact Hrest].
    apply still_reading_snoc. exact Hb.
Qed.

(** X16: On a buffered connection that holds no zero byte, [read_ascii] never
    returns and never raises: once the queue is empty every [read(1)] gives
    the empty bytearray, and the loop goes on, whatever number of turns it
    is given. *)
Theorem read_ascii_without_terminator_spins
    (rcv : bytes) (snt : pyobj) (fuel : nat) :
  Forall (fun b => b <> 0) rcv ->
  read_ascii fuel {| sent := snt; received := rcv |} = None.
Proof.
  intros Hrcv. unfold read_ascii.
  rewrite read_ascii_loop_spins; [reflexivity | left; reflexivity | exact Hrcv].
Qed.

Lemma read_ascii_without_terminator_spins_witness :
  Forall (fun b => b <> 0) [97; 98; 99] /\
  read_ascii 1000 {| sent := Bytes []; received := [97; 98; 99] |} = None.
Proof.
  assert (Hrcv : Forall (fun b => b <> 0) [97; 98; 99])
    by (repeat constructor; discriminate).
  split; [exact Hrcv|].
  apply (read_ascii_without_terminator_spins [97; 98; 99] (Bytes []) 1000 Hrcv).
Defined.

(** X17: A character outside ISO-8859-1 makes [write_ascii] raise before
    anything is written, on every kind of connection. *)
Theorem write_ascii_unencodable {C : Type} `{ConnectionOps C}
    (value : str) (self : C) :
  Exists (fun c => c < 0 \/ 255 < c) value ->
  write_ascii value self = (Raise UnicodeEncodeError, self).
Proof.
  intros Hbad. unfold write_ascii, latin1_encode.
  replace (forallb (fun c => (0 <=? c) && (c <=? 255)) value) with false;
    [reflexivity|].
  symmetry. apply not_true_is_false. intros Hall.
  rewrite forallb_forall in Hall. apply Exists_exists in Hbad.
  destruct Hbad as (c & Hin & Hc). specialize (Hall c Hin).
  apply andb_prop in Hall. destruct Hall as [H0 H255].
  apply Z.leb_le in H0, H255. lia.
Qed.

Lemma write_ascii_unencodable_witness :
  Exists (fun c => c < 0 \/ 255 < c) [97; 0x20AC] /\
  write_ascii [97; 0x20AC] Connection_init
  = (Raise UnicodeEncodeError, Connection_init).
Proof.
  assert (Hbad : Exists (fun c => c < 0 \/ 255 < c) [97; 0x20AC])
    by (right; left; right; lia).
  split; [exact Hbad|].
  apply (write_ascii_unencodable [97; 0x20AC] Connection_init Hbad).
Defined.

(** ** Reusing a flushed connection *)

(** X18: Writing a connection into another one appends its accumulated bytes and
    flushes it.  The flushed connection cannot be embedded again: a second
    [write] of it raises [TypeError] and appends nothing, and a
    [write_buffer] of it appends a zero length byte and then raises. *)
Theorem flushed_connection_cannot_be_embedded (B brcv pre rcv : bytes) :
  let self := {| sent := Bytes pre; received := rcv |} in
  let self' := {| sent := Bytes (pre ++ B); received := rcv |} in
  let flushed := {| sent := Str []; received := brcv |} in
  Buffered.write_connection {| sent := Bytes B; received := brcv |} self
  = (Ok tt, self', flushed) /\
  Buffered.write_connection flushed self'
  = (Raise TypeError_str_without_encoding, self', flushed) /\
  write_buffer flushed self'
  = ((Raise TypeError_str_without_encoding,
      {| sent := Bytes ((pre ++ B) ++ [0]); received := rcv |}), flushed).
Proof. repeat split. Qed.

(** ** Datagrams *)

Lemma recv_loop_skips_empty (bufsize : Z) (empties : list bytes) :
  forall tail : list bytes,
    Forall (fun d => d = []) empties ->
    UDP.recv_loop bufsize (empties ++ tail) = UDP.recv_loop bufsize tail.
Proof.
  induction empties as [|e empties IH]; intros tail Hall; [reflexivity|].
  inversion Hall as [|? ? He Hrest]; subst.
  cbn [app UDP.recv_loop]. rewrite firstn_nil. cbn [len length Z.of_nat Z.eqb].
  apply IH. exact Hrest.
Qed.

(** X19: A datagram [read] skips the empty datagrams and returns the first one
    that is not empty, whole (up to 65535 bytes), whatever length was asked;
    the datagrams behind it stay queued. *)
Theorem udp_read_first_nonempty
    (n : Z) (empties rest out : list bytes) (d : bytes) :
  Forall (fun e => e = []) empties ->
  d <> [] ->
  UDP.read n {| incoming := empties ++ d :: rest; outgoing := out |}
  = (Ok (firstn (Z.to_nat 65535) d), {| incoming := rest; outgoing := out |}).
Proof.
  intros Hempty Hd. unfold UDP.read, UDP.remaining.
  erewrite bind_ok by reflexivity. cbn [incoming outgoing].
  rewrite recv_loop_skips_empty by exact Hempty.
  cbn [UDP.recv_loop].
  destruct d as [|b d]; [contradiction|].
  replace (Z.to_nat 65535) with (S (Z.to_nat 65534)) by lia.
  cbn [firstn]. unfold len. cbn [length].
  replace (Z.of_nat (S (length (firstn (Z.to_nat 65534) d))) =? 0) with false
    by (symmetry; apply Z.eqb_neq; lia).
  reflexivity.
Qed.

Lemma udp_read_first_nonempty_witness :
  Forall (fun e : bytes => e = []) [[]; []] /\
  [254; 253; 9] <> [] /\
  UDP.read 1 {| incoming := [[]; []] ++ [254; 253; 9] :: [[1]]; outgoing := [] |}
  = (Ok (firstn (Z.to_nat 65535) [254; 253; 9]),
     {| incoming := [[1]]; outgoing := [] |}).
Proof.
  assert (Hempty : Forall (fun e : bytes => e = []) [[]; []])
    by (repeat constructor).
  assert (Hd : [254; 253; 9] <> []) by discriminate.
  split; [exact Hempty|]. split; [exact Hd|].
  apply (udp_read_first_nonempty 1 [[]; []] [[1]] [] [254; 253; 9] Hempty Hd).
Defined.

(** X20: When only empty datagrams arrive before the timeout, the datagram
    [read] consumes them all and raises the socket's timeout. *)
Theorem udp_read_times_out (n : Z) (empties out : list bytes) :
  Forall (fun e => e = []) empties ->
  UDP.read n {| incoming := empties; outgoing := out |}
  = (Raise SocketTimeout, {| incoming := []; outgoing := out |}).
Proof.
  intros Hempty. unfold UDP.read, UDP.remaining.
  erewrite bind_ok by reflexivity. cbn [incoming outgoing].
  rewrite <- (app_nil_r empties).
  rewrite recv_loop_skips_empty by exact Hempty. reflexivity.
Qed.

Lemma udp_read_times_out_witness :
  Forall (fun e : bytes => e = []) [[]; []; []] /\
  UDP.read 4 {| incoming := [[]; []; []]; outgoing := [[1]] |}
  = (Raise SocketTimeout, {| incoming := []; outgoing := [[1]] |}).
Proof.
  assert (Hempty : Forall (fun e : bytes => e = []) [[]; []; []])
    by (repeat constructor).
  split; [exact Hempty|].
  apply (udp_read_times_out 4 [[]; []; []] [[1]] Hempty).
Defined.

(** ** The codec over a TCP stream *)

Lemma tcp_read_loop_prefix (length_ : Z) (result : bytes)
    (self : TCPSocketConnection) :
  forall segments,
    _reader self = Some segments ->
    len result <= length_ <= len result + len (concat segments) ->
    exists segments',
      TCPRead.read_loop length_ result self
      = (Ok (result ++ firstn (Z.to_nat (length_ - len result)) (concat segments)),
         {| _reader := Some segments'; _writer := _writer self |}) /\
      concat segments'
      = skipn (Z.to_nat (length_ - len result)) (concat segments).
Proof.
  funelim (TCPRead.read_loop length_ result self); intros segments Hsome Hle;
    try match goal with
      | Hcall : _ = TCPRead.read_loop _ _ _ |- _ => rewrite <- Hcall
      end.
  - replace (length_ - len result) with 0 by lia.
    cbn [Z.to_nat firstn skipn]. rewrite app_nil_r.
    exists segments. destruct self as [rd wr]. cbn [_reader _writer] in *.
    subst rd. split; reflexivity.
  - match goal with
    | Hrd : TCP.reader_read _ _ = _ |- _ =>
        unfold TCP.reader_read in Hrd; rewrite Hsome in Hrd;
        destruct (stream_read _ segments); discriminate Hrd
    end.
  - match goal with
    | Hrd : TCP.reader_read _ _ = _ |- _ =>
        apply reader_read_spec in Hrd as (segs & segs' & Hs1 & _ & Hs)
    end.
    rewrite Hsome in Hs1. inversion Hs1; subst segs.
    apply stream_read_spec in Hs as (_ & _ & Hnil).
    match goal with
    | Hz : len _ = 0 |- _ => pose proof (len_zero_nil _ Hz) as Hnew
    end.
    destruct (Hnil Hnew) as [Hn | Hc].
    + lia.
    + rewrite Hc in Hle. unfold len in Hle at 3. simpl in Hle. lia.
  - match goal with
    | Hrd : TCP.reader_read _ _ = _ |- _ =>
        apply reader_read_spec in Hrd as (segs & segs' & Hs1 & Hs2 & Hs)
    end.
    rewrite Hsome in Hs1. inversion Hs1; subst segs.
    apply stream_read_spec in Hs as (Hcat & Hlen & _).
    match goal with
    | IH : forall s, _ -> _ -> exists _, _ |- _ =>
        destruct (IH segs') as (segs'' & Hrun & Hleft)
    end.
    + subst self'. reflexivity.
    + rewrite Hcat, len_app in Hle. rewrite len_app.
      unfold len in *. lia.
    + assert (Hk : (Z.to_nat (length_ - len result)
                    = length new + Z.to_nat (length_ - len (result ++ new)))%nat)
        by (rewrite len_app; unfold len in *; lia).
      exists segs''. rewrite Hrun. subst self'. cbn [_writer]. split.
      * rewrite Hcat, <- app_assoc, Hk. do 3 f_equal.
        rewrite firstn_app_2. reflexivity.
      * rewrite Hleft, Hcat, Hk, skipn_app.
        rewrite (skipn_all2 new) by lia.
        replace (length new + Z.to_nat (length_ - len (result ++ new))
                 - length new)%nat
          with (Z.to_nat (length_ - len (result ++ new))) by lia.
        reflexivity.
Qed.

Lemma tcp_read_takes_prefix (n : Z) (segments : list bytes) (out : option bytes) :
  0 <= n <= len (concat segments) ->
  exists segments',
    TCPRead.read n {| _reader := Some segments; _writer := out |}
    = (Ok (firstn (Z.to_nat n) (concat segments)),
       {| _reader := Some segments'; _writer := out |}) /\
    concat segments' = skipn (Z.to_nat n) (concat segments).
Proof.
  intros Hn. unfold TCPRead.read.
  destruct (tcp_read_loop_prefix n [] {| _reader := Some segments; _writer := out |}
              segments eq_refl) as (segments' & Hrun & Hleft).
  - change (len []) with 0. lia.
  - exists segments'. change (len []) with 0 in Hrun, Hleft.
    rewrite Z.sub_0_r in Hrun, Hleft. split; [exact Hrun | exact Hleft].
Qed.

(** X21: A TCP [read(n)] returns the first [n] bytes of the stream and leaves
    the rest of it to be read, however the stream is cut into segments. *)
Theorem tcp_read_content (n : Z) (segments : list bytes) (out : option bytes) :
  0 <= n <= len (concat segments) ->
  exists segments',
    TCPRead.read n {| _reader := Some segments; _writer := out |}
    = (Ok (firstn (Z.to_nat n) (concat segments)),
       {| _reader := Some segments'; _writer := out |}) /\
    concat segments' = skipn (Z.to_nat n) (concat segments).
Proof. apply tcp_read_takes_prefix. Qed.

Lemma tcp_read_content_witness :
  0 <= 4 <= len (concat [[1]; []; [2; 3]; [4; 5; 6]]) /\
  exists segments',
    TCPRead.read 4 {| _reader := Some [[1]; []; [2; 3]; [4; 5; 6]]; _writer := None |}
    = (Ok (firstn (Z.to_nat 4) (concat [[1]; []; [2; 3]; [4; 5; 6]])),
       {| _reader := Some segments'; _writer := None |}) /\
    concat segments' = skipn (Z.to_nat 4) (concat [[1]; []; [2; 3]; [4; 5; 6]]).
Proof.
  assert (Hn : 0 <= 4 <= len (concat [[1]; []; [2; 3]; [4; 5; 6]]))
    by (vm_compute; split; discriminate).
  split; [exact Hn|].
  apply (tcp_read_content 4 [[1]; []; [2; 3]; [4; 5; 6]] None Hn).
Defined.

Lemma tcp_read_1 (segments : list bytes) (out : option bytes) (b : Z) (rest : bytes) :
  concat segments = b :: rest ->
  exists segments',
    read 1 {| _reader := Some segments; _writer := out |}
    = (Ok [b], {| _reader := Some segments'; _writer := out |}) /\
    concat segments' = rest.
Proof.
  intros Hcat.
  destruct (tcp_read_takes_prefix 1 segments out) as (segments' & Hrun & Hleft).
  - rewrite Hcat. unfold len. cbn [length]. lia.
  - exists segments'. rewrite Hcat in Hrun, Hleft. split; [exact Hrun | exact Hleft].
Qed.

(** Whenever decoding succeeds on a buffered connection that holds the
    bytes of the stream, it succeeds alike on the TCP connection. *)
Lemma tcp_read_varint_loop_follows (n : nat) :
  forall (i acc v : Z) (segments : list bytes) (out : option bytes)
         (snt snt' : pyobj) (rest : bytes),
    read_varint_loop n i acc {| sent := snt; received := concat segments |}
    = (Ok v, {| sent := snt'; received := rest |}) ->
    exists segments',
      read_varint_loop n i acc {| _reader := Some segments; _writer := out |}
      = (Ok v, {| _reader := Some segments'; _writer := out |}) /\
      concat segments' = rest.
Proof.
  induction n as [|n IH]; intros i acc v segments out snt snt' rest Hbuf;
    cbn [read_varint_loop] in Hbuf |- *.
  - discriminate Hbuf.
  - destruct (concat segments) as [|b r] eqn:Hcat.
    + discriminate Hbuf.
    + erewrite bind_ok in Hbuf by apply buffered_read_1.
      destruct (tcp_read_1 segments out b r Hcat) as (segs1 & Hrd & Hleft).
      erewrite bind_ok by exact Hrd.
      cbn [ord] in Hbuf |- *.
      erewrite bind_ok in Hbuf by reflexivity.
      erewrite bind_ok by reflexivity.
      destruct (Z.land b 128 =? 0).
      * exists segs1. unfold ret in Hbuf |- *.
        assert (Hv : Z.lor acc (Z.shiftl (Z.land b 127) (7 * i)) = v)
          by congruence.
        assert (Hr : r = rest) by congruence.
        rewrite Hv. split; [reflexivity | congruence].
      * subst r. apply (IH _ _ _ segs1 out snt snt' rest). exact Hbuf.
Qed.

Lemma tcp_write_varint_loop_follows (n : nat) :
  forall (value r : Z) (s rcv : bytes) (rd : option (list bytes)) (out : bytes),
  exists (outcome : res unit) (bs : bytes),
    write_varint_loop n value r {| sent := Bytes s; received := rcv |}
    = (outcome, {| sent := Bytes (s ++ bs); received := rcv |}) /\
    write_varint_loop n value r {| _reader := rd; _writer := Some out |}
    = (outcome, {| _reader := rd; _writer := Some (out ++ bs) |}).
Proof.
  induction n as [|n IH]; intros value r s rcv rd out;
    cbn [write_varint_loop].
  - exists (Raise (ValueError_varint_too_big value)), [].
    rewrite !app_nil_r. split; reflexivity.
  - destruct (Z.land r (Z.lnot 127) =? 0).
    + destruct (pack_B r) as [b|e].
      * exists (Ok tt), b. split; reflexivity.
      * exists (Raise e), []. rewrite !app_nil_r. split; reflexivity.
    + destruct (pack_B (Z.lor (Z.land r 127) 128)) as [b|e].
      * destruct (IH value (Z.shiftr r 7) (s ++ b) rcv rd (out ++ b))
          as (outcome & bs & Hbuf & Htcp).
        exists outcome, (b ++ bs). rewrite !app_assoc. split.
        -- erewrite bind_ok by reflexivity.
           erewrite bind_ok by apply buffered_write_bytes. exact Hbuf.
        -- erewrite bind_ok by reflexivity.
           erewrite bind_ok by reflexivity. exact Htcp.
      * exists (Raise e), []. rewrite !app_nil_r. split; reflexivity.
Qed.

(** X22: [write_varint] does to a connected TCP writer what it does to a buffered
    connection: the same outcome, the same bytes appended. *)
Theorem tcp_write_varint_same_bytes
    (v : Z) (s rcv : bytes) (rd : option (list bytes)) (out : bytes) :
  exists (outcome : res unit) (bs : bytes),
    write_varint v {| sent := Bytes s; received := rcv |}
    = (outcome, {| sent := Bytes (s ++ bs); received := rcv |}) /\
    write_varint v {| _reader := rd; _writer := Some out |}
    = (outcome, {| _reader := rd; _writer := Some (out ++ bs) |}).
Proof. apply tcp_write_varint_loop_follows. Qed.

(** X23: A varint sent over TCP arrives: the bytes [write_varint] hands to the
    writer, once they are the front of the peer's stream, are decoded by
    [read_varint] to the value, however the stream is cut into segments,
    and the rest of the stream is left to be read. *)
Theorem tcp_varint_roundtrip
    (v : Z) (rd : option (list bytes)) (out : bytes) :
  0 <= v < 2 ^ 35 ->
  exists bs : bytes,
    write_varint v {| _reader := rd; _writer := Some out |}
    = (Ok tt, {| _reader := rd; _writer := Some (out ++ bs) |}) /\
    forall (segments : list bytes) (rest : bytes) (out' : option bytes),
      concat segments = bs ++ rest ->
      exists segments',
        read_varint {| _reader := Some segments; _writer := out' |}
        = (Ok v, {| _reader := Some segments'; _writer := out' |}) /\
        concat segments' = rest.
Proof.
  intros Hv.
  destruct (varint_roundtrip_state v [] [] Hv) as (bs & _ & Hw & Hrd).
  destruct (tcp_write_varint_loop_follows 5 v v [] [] rd out)
    as (outcome & bs' & Hbuf & Htcp).
  unfold write_varint in Hw. rewrite Hw in Hbuf.
  assert (Hsame : outcome = Ok tt /\ bs' = bs).
  { inversion Hbuf; subst. split; reflexivity. }
  destruct Hsame as [-> ->].
  exists bs. split; [exact Htcp|].
  intros segments rest out' Hcat.
  apply (tcp_read_varint_loop_follows 5 0 0 v segments out' (Bytes []) (Bytes []) rest).
  rewrite Hcat. apply Hrd.
Qed.

Lemma tcp_varint_roundtrip_witness :
  0 <= 25565 < 2 ^ 35 /\
  exists bs : bytes,
    write_varint 25565 {| _reader := None; _writer := Some [] |}
    = (Ok tt, {| _reader := None; _writer := Some ([] ++ bs) |}) /\
    forall (segments : list bytes) (rest : bytes) (out' : option bytes),
      concat segments = bs ++ rest ->
      exists segments',
        read_varint {| _reader := Some segments; _writer := out' |}
        = (Ok 25565, {| _reader := Some segments'; _writer := out' |}) /\
        concat segments' = rest.
Proof.
  split; [lia|]. apply (tcp_varint_roundtrip 25565 None []). lia.
Defined.

Lemma bind_raise_fst {S A B} (m : M S A) (k : A -> M S B) (s : S) (e : exn) :
  fst (m s) = Raise e -> fst (bind m k s) = Raise e.
Proof.
  intros Hm. unfold bind. destruct (m s) as [[a|e'] s']; cbn [fst] in *;
    [discriminate Hm | congruence].
Qed.

Lemma tcp_read_varint_loop_cut_short (bs : bytes) :
  forall (n : nat) (i acc : Z) (segments : list bytes) (out : option bytes),
    concat segments = bs ->
    (length bs < n)%nat ->
    Forall (fun b => Z.land b 0x80 <> 0) bs ->
    fst (read_varint_loop n i acc {| _reader := Some segments; _writer := out |})
    = Raise IOError_no_information.
Proof.
  induction bs as [|b bs IH]; intros n i acc segments out Hcat Hlen Hall;
    (destruct n as [|n]; [simpl in Hlen; lia|]); cbn [read_varint_loop].
  - apply bind_raise_fst.
    apply (read_loop_peer_closed 1 [] _ segments); [reflexivity|].
    rewrite Hcat. reflexivity.
  - inversion Hall as [|? ? Hb Hbs]; subst.
    destruct (tcp_read_1 segments out b bs Hcat) as (segs1 & Hrd & Hleft).
    erewrite bind_ok by exact Hrd. cbn [ord].
    erewrite bind_ok by reflexivity.
    apply Z.eqb_neq in Hb. rewrite Hb.
    apply IH; [exact Hleft | simpl in Hlen; lia | exact Hbs].
Qed.

(** X24: On a TCP connection the same cut-short varint raises the [IOError] of
    a peer that sent nothing more, where the buffered connection raises a
    [TypeError]. *)
Theorem tcp_read_varint_cut_short (segments : list bytes) (out : option bytes) :
  (length (concat segments) < 5)%nat ->
  Forall (fun b => Z.land b 0x80 <> 0) (concat segments) ->
  fst (read_varint {| _reader := Some segments; _writer := out |})
  = Raise IOError_no_information.
Proof.
  intros Hlen Hall.
  apply (tcp_read_varint_loop_cut_short (concat segments)); auto.
Qed.

Lemma tcp_read_varint_cut_short_witness :
  (length (concat [[200]; [129]]) < 5)%nat /\
  Forall (fun b => Z.land b 0x80 <> 0) (concat [[200]; [129]]) /\
  fst (read_varint {| _reader := Some [[200]; [129]]; _writer := None |})
  = Raise IOError_no_information.
Proof.
  assert (Hlen : (length (concat [[200]; [129]]) < 5)%nat) by (simpl; lia).
  assert (Hall : Forall (fun b => Z.land b 0x80 <> 0) (concat [[200]; [129]]))
    by (repeat constructor; discriminate).
  split; [exact Hlen|]. split; [exact Hall|].
  apply (tcp_read_varint_cut_short [[200]; [129]] None Hlen Hall).
Defined.

(** ** More on [query] *)

Lemma query_returns_first_success_witness :
  Z.of_nat 2 < 3 /\
  (forall j, (j < 2)%nat -> exists e, attempt_outcome (flaky 3) j 0%nat = Raise e) /\
  attempt_outcome (flaky 3) 2 0%nat = Ok 3 /\
  fst (query (fun _ : unit => flaky 3) (fun _ w => (Ok [], w)) tt 3 0%nat) = Ok 3.
Proof.
  assert (Hfail : forall j, (j < 2)%nat ->
                    exists e, attempt_outcome (flaky 3) j 0%nat = Raise e).
  { intros [|[|j]] Hj; [eexists; reflexivity | eexists; reflexivity | lia]. }
  split; [lia|]. split; [exact Hfail|]. split; [reflexivity|].
  apply (query_returns_first_success (fun _ : unit => flaky 3)
           (fun _ w => (Ok [], w)) tt 3 0%nat 2 3 ltac:(lia) Hfail eq_refl).
Defined.

Lemma query_raises_last_error_witness :
  1 <= 3 /\
  (forall j, Z.of_nat j < 3 ->
             exists e, attempt_outcome (flaky 0) j 0%nat = Raise e) /\
  fst (query (fun _ : unit => flaky 0) (fun _ w => (Ok [], w)) tt 3 0%nat)
  = Raise (OtherError 3).
Proof.
  assert (Hfail : forall j, Z.of_nat j < 3 ->
                    exists e, attempt_outcome (flaky 0) j 0%nat = Raise e).
  { intros [|[|[|j]]] Hj; [eexists; reflexivity ..| lia]. }
  split; [lia|]. split; [exact Hfail|].
  apply (query_raises_last_error (fun _ : unit => flaky 0)
           (fun _ w => (Ok [], w)) tt 3 0%nat ltac:(lia) Hfail).
Defined.

(** X27: With a budget of zero or less, [query] makes no exchange; the loop's
    [else] branch then raises [None], which is a [TypeError]. *)
Theorem query_without_budget {World Result Host : Type}
    (query_exchange : Host -> M World Result)
    (resolve_A : Host -> World -> res (list Host) * World)
    (host : Host) (tries : Z) (w : World) :
  tries <= 0 ->
  query query_exchange resolve_A host tries w
  = (Raise TypeError_raise_None, snd (query_host resolve_A host w)).
Proof.
  intros Htries. rewrite query_runs_attempts.
  replace (Z.to_nat tries) with 0%nat by lia. reflexivity.
Qed.

Lemma query_without_budget_witness :
  0 <= 0 /\
  query (fun _ : unit => flaky 1) (fun _ w => (Ok [], w)) tt 0 0%nat
  = (Raise TypeError_raise_None, 0%nat).
Proof.
  split; [lia|].
  apply (query_without_budget (fun _ : unit => flaky 1)
           (fun _ w => (Ok [], w)) tt 0 0%nat). lia.
Defined.

Section ExchangesMade.
Context {World Result : Type}.
Variable exchange : M World Result.

Lemma attempts_stop_at_success (k : nat) :
  forall (n : nat) (exception : option exn) (w : World) (result : Result),
    (k < n)%nat ->
    (forall j, (j < k)%nat -> exists e, attempt_outcome exchange j w = Raise e) ->
    attempt_outcome exchange k w = Ok result ->
    snd (attempts exchange n exception w) = world_before exchange (S k) w.
Proof.
  induction k as [|k IH]; intros n exception w result Hk Hfail Hok;
    (destruct n as [|n]; [lia|]); cbn [attempts world_before].
  - unfold attempt_outcome in Hok. cbn [world_before] in Hok.
    destruct (exchange w) as [[r|e] w']; cbn [fst] in Hok;
      [reflexivity | discriminate Hok].
  - destruct (Hfail 0%nat ltac:(lia)) as (e0 & He0).
    unfold attempt_outcome in He0. cbn [world_before] in He0.
    destruct (exchange w) as [[r|e] w'] eqn:Hrun; cbn [fst] in He0;
      [discriminate He0|].
    cbn [snd]. apply (IH n (Some e) w' result); [lia| |].
    + intros j Hj. destruct (Hfail (S j) ltac:(lia)) as (e' & He').
      exists e'. unfold attempt_outcome in *. cbn [world_before] in He'.
      rewrite Hrun in He'. exact He'.
    + unfold attempt_outcome in *. cbn [world_before] in Hok.
      rewrite Hrun in Hok. exact Hok.
Qed.

Lemma attempts_use_whole_budget (n : nat) :
  forall (exception : option exn) (w : World),
    (forall j, (j < n)%nat -> exists e, attempt_outcome exchange j w = Raise e) ->
    snd (attempts exchange n exception w) = world_before exchange n w.
Proof.
  induction n as [|n IH]; intros exception w Hfail; cbn [attempts world_before].
  - destruct exception; reflexivity.
  - destruct (Hfail 0%nat ltac:(lia)) as (e0 & He0).
    unfold attempt_outcome in He0. cbn [world_before] in He0.
    destruct (exchange w) as [[r|e] w'] eqn:Hrun; cbn [fst] in He0;
      [discriminate He0|].
    cbn [snd]. apply IH. intros j Hj.
    destruct (Hfail (S j) ltac:(lia)) as (e' & He').
    exists e'. unfold attempt_outcome in *. cbn [world_before] in He'.
    rewrite Hrun in He'. exact He'.
Qed.

End ExchangesMade.

(** X28: [query] stops at the first exchange that succeeds: when attempt [k + 1]
    is the first to succeed, exactly [k + 1] exchanges have been made,
    whatever is left of the budget. *)
Theorem query_stops_at_first_success {World Result Host : Type}
    (query_exchange : Host -> M World Result)
    (resolve_A : Host -> World -> res (list Host) * World)
    (host : Host) (tries : Z) (w : World) (k : nat) (result : Result) :
  let host' := fst (query_host resolve_A host w) in
  let w1 := snd (query_host resolve_A host w) in
  Z.of_nat k < tries ->
  (forall j, (j < k)%nat ->
             exists e, attempt_outcome (query_exchange host') j w1 = Raise e) ->
  attempt_outcome (query_exchange host') k w1 = Ok result ->
  snd (query query_exchange resolve_A host tries w)
  = world_before (query_exchange host') (S k) w1.
Proof.
  intros host' w1 Hk Hfail Hok. rewrite query_runs_attempts.
  apply (attempts_stop_at_success _ k _ None _ result);
    [lia | exact Hfail | exact Hok].
Qed.

Lemma query_stops_at_first_success_witness :
  Z.of_nat 1 < 5 /\
  (forall j, (j < 1)%nat -> exists e, attempt_outcome (flaky 2) j 0%nat = Raise e) /\
  attempt_outcome (flaky 2) 1 0%nat = Ok 2 /\
  snd (query (fun _ : unit => flaky 2) (fun _ w => (Ok [], w)) tt 5 0%nat)
  = world_before (flaky 2) 2 0%nat.
Proof.
  assert (Hfail : forall j, (j < 1)%nat ->
                    exists e, attempt_outcome (flaky 2) j 0%nat = Raise e).
  { intros [|j] Hj; [eexists; reflexivity | lia]. }
  split; [lia|]. split; [exact Hfail|]. split; [reflexivity|].
  apply (query_stops_at_first_success (fun _ : unit => flaky 2)
           (fun _ w => (Ok [], w)) tt 5 0%nat 1 2 ltac:(lia) Hfail eq_refl).
Defined.

(** X29: When every attempt fails, [query] has made exactly as many exchanges as
    its budget allows, one after the other, with nothing in between. *)
Theorem query_uses_whole_budget {World Result Host : Type}
    (query_exchange : Host -> M World Result)
    (resolve_A : Host -> World -> res (list Host) * World)
    (host : Host) (tries : Z) (w : World) :
  let host' := fst (query_host resolve_A host w) in
  let w1 := snd (query_host resolve_A host w) in
  (forall j, Z.of_nat j < tries ->
             exists e, attempt_outcome (query_exchange host') j w1 = Raise e) ->
  snd (query query_exchange resolve_A host tries w)
  = world_before (query_exchange host') (Z.to_nat tries) w1.
Proof.
  intros host' w1 Hfail. rewrite query_runs_attempts.
  apply attempts_use_whole_budget. intros j Hj. apply Hfail. lia.
Qed.

Lemma query_uses_whole_budget_witness :
  (forall j, Z.of_nat j < 2 ->
             exists e, attempt_outcome (flaky 0) j 0%nat = Raise e) /\
  snd (query (fun _ : unit => flaky 0) (fun _ w => (Ok [], w)) tt 2 0%nat)
  = world_before (flaky 0) (Z.to_nat 2) 0%nat.
Proof.
  assert (Hfail : forall j, Z.of_nat j < 2 ->
                    exists e, attempt_outcome (flaky 0) j 0%nat = Raise e).
  { intros [|[|j]] Hj; [eexists; reflexivity ..| lia]. }
  split; [exact Hfail|].
  apply (query_uses_whole_budget (fun _ : unit => flaky 0)
           (fun _ w => (Ok [], w)) tt 2 0%nat Hfail).
Defined.
